(** * Gesture_music: the gesture-to-audio-parameter mapping and its debouncer

    A shallow embedding of [src/utils.py] and of the [GestureController]
    class of [src/gesture_controller.py].

    Numbers.  Python's [float] values are read as real numbers ([R]): the
    arithmetic of the mapping ([+], [-], [*], [abs], [np.sqrt], [np.clip])
    is the exact one, rounding of binary64 is not part of the model.

    State.  The attributes of [self] are a record ([Controller]); the
    process-wide [pygame.mixer.music] is a second record ([Mixer]); the
    [World] holds both, together with the render threads that were started
    and have not run yet, the wall clock read by [time.time()], the
    trace of calls made on the external collaborators, and what the
    temporary file of the renders holds. *)

From Stdlib Require Import Reals Lra Lia List ZArith Bool.
Import ListNotations.

Open Scope R_scope.

(** ** utils.py *)

Module utils.

(** A landmark of the detector: only its [x] and [y] attributes are read. *)
Record Landmark : Type := { x : R; y : R }.

Definition calculate_distance (landmark1 landmark2 : Landmark) : R :=
  sqrt ((x landmark1 - x landmark2) ^ 2 + (y landmark1 - y landmark2) ^ 2).

End utils.

(** ** numpy and builtins used by the controller *)

(** [np.clip(a, a_min, a_max)] is [minimum(a_max, maximum(a, a_min))]. *)
Definition clip (a a_min a_max : R) : R := Rmin (Rmax a a_min) a_max.

(** [round(x)] of Python 3 on a float: nearest integer, ties to even. *)
Definition py_round (v : R) : Z :=
  let n := Int_part v in
  let f := frac_part v in
  if Rlt_dec f (1 / 2) then n
  else if Rgt_dec f (1 / 2) then (n + 1)%Z
  else if Z.even n then n else (n + 1)%Z.

(** ** Hands *)

(** The roles of [mp_hands.HandLandmark] that the controller indexes
    [hand_landmarks.landmark] with. *)
Inductive HandLandmark : Type := WRIST | THUMB_TIP | INDEX_FINGER_TIP.

Record Hand : Type := { landmark : HandLandmark -> utils.Landmark }.

(** ** The playback sink: pygame.mixer.music *)

(** What the mixer has loaded: the audio file given at start, or the
    temporary file, with the speed and the semitone count of the render it
    held when it was loaded. *)
Inductive Track : Type :=
| Original
| Rendered (speed : R) (semitones : Z).

Inductive MusicStatus : Type :=
| Idle
| Playing (loops : Z)
| Paused (loops : Z).

Record Mixer : Type := {
  loaded : Track;
  status : MusicStatus;
  volume : R
}.

(** [(int)] of C on a float: towards zero. *)
Definition c_int (v : R) : Z :=
  if Rle_dec 0 v then Int_part v else (- Int_part (- v))%Z.

(** The volume the mixer keeps after [set_volume(v)]: pygame hands
    [(int)(v * 128)] to SDL, which leaves the volume alone when that is
    negative and stops at 128; [get_volume] gives it back over 128. *)
Definition kept_volume (v current : R) : R :=
  let n := c_int (v * 128) in
  if (n <? 0)%Z then current else IZR (Z.min n 128) / 128.

Module music.

Definition load (t : Track) (m : Mixer) : Mixer :=
  {| loaded := t; status := Idle; volume := volume m |}.

Definition play (loops : Z) (m : Mixer) : Mixer :=
  {| loaded := loaded m; status := Playing loops; volume := volume m |}.

Definition pause (m : Mixer) : Mixer :=
  {| loaded := loaded m;
     status := match status m with Playing l => Paused l | st => st end;
     volume := volume m |}.

Definition unpause (m : Mixer) : Mixer :=
  {| loaded := loaded m;
     status := match status m with Paused l => Playing l | st => st end;
     volume := volume m |}.

Definition stop (m : Mixer) : Mixer :=
  {| loaded := loaded m; status := Idle; volume := volume m |}.

Definition set_volume (v : R) (m : Mixer) : Mixer :=
  {| loaded := loaded m; status := status m;
     volume := kept_volume v (volume m) |}.

End music.

(** ** The attributes of a GestureController *)

Record Controller : Type := {
  playing : bool;
  current_speed : R;
  current_pitch : R;
  is_playing : bool;
  last_update_time : R;
  update_interval : R;
  last_speed : R;
  last_pitch : R;
  speed_threshold : R;
  pitch_threshold : R;
  paused : bool;
  (* created by [reset_controls] *)
  _last_speed : option R;
  _last_pitch : option R;
  (* created by [process_frame] *)
  hand_count : option nat
}.

(** Calls on the external collaborators, in the order they are made. *)
Inductive Call : Type :=
| music_set_volume (v : R)
| music_load (t : Track)
| music_play (loops : Z)
| music_pause
| music_unpause
| music_stop
| Thread_start
| pyrb_time_stretch (speed : R)
| pyrb_pitch_shift (n_steps : Z)
| sf_write
| print_pitch_updated (pitch : R)
| print_audio_processed (speed pitch : R)
| print_error_in_audio_processing (speed pitch : R)
| print_resetting
| print_resuming
| print_pausing
| print_starting.

(** What the file [self.temp_output] holds: nothing yet, the render written
    by [sf.write] at a speed and a semitone count, or whatever a write that
    raised has left of it. *)
Inductive TempFile : Type :=
| created_empty
| render_of (speed : R) (semitones : Z)
| left_by_failed_write.

(** A render thread between its call of [pyrb.time_stretch] and the rest of
    [_process_audio]: it holds the speed it read when it made the call. *)
Record Job : Type := { stretching_at : R }.

Record World : Type := {
  self : Controller;
  mixer : Mixer;
  (** threads started on [_process_audio] that have not begun to run *)
  started : nat;
  (** threads inside [_process_audio], oldest first *)
  running : list Job;
  (** [time_time n] is what the [n]-th call of [time.time()] returns *)
  time_time : nat -> R;
  clock_reads : nat;
  calls : list Call;
  (** the content of the one temporary file that every render writes and
      the mixer streams from once it has loaded it *)
  temp_output : TempFile
}.

(** *** Attribute assignment *)

Definition with_self (f : Controller -> Controller) (w : World) : World :=
  {| self := f (self w); mixer := mixer w; started := started w;
     running := running w; time_time := time_time w;
     clock_reads := clock_reads w; calls := calls w;
     temp_output := temp_output w |}.

Definition with_mixer (f : Mixer -> Mixer) (w : World) : World :=
  {| self := self w; mixer := f (mixer w); started := started w;
     running := running w; time_time := time_time w;
     clock_reads := clock_reads w; calls := calls w;
     temp_output := temp_output w |}.

Definition call (c : Call) (w : World) : World :=
  {| self := self w; mixer := mixer w; started := started w;
     running := running w; time_time := time_time w;
     clock_reads := clock_reads w; calls := calls w ++ [c];
     temp_output := temp_output w |}.

Definition set_current_speed (v : R) (c : Controller) : Controller :=
  {| playing := playing c; current_speed := v;
     current_pitch := current_pitch c; is_playing := is_playing c;
     last_update_time := last_update_time c;
     update_interval := update_interval c; last_speed := last_speed c;
     last_pitch := last_pitch c; speed_threshold := speed_threshold c;
     pitch_threshold := pitch_threshold c; paused := paused c;
     _last_speed := _last_speed c; _last_pitch := _last_pitch c;
     hand_count := hand_count c |}.

Definition set_current_pitch (v : R) (c : Controller) : Controller :=
  {| playing := playing c; current_speed := current_speed c;
     current_pitch := v; is_playing := is_playing c;
     last_update_time := last_update_time c;
     update_interval := update_interval c; last_speed := last_speed c;
     last_pitch := last_pitch c; speed_threshold := speed_threshold c;
     pitch_threshold := pitch_threshold c; paused := paused c;
     _last_speed := _last_speed c; _last_pitch := _last_pitch c;
     hand_count := hand_count c |}.

Definition set_is_playing (b : bool) (c : Controller) : Controller :=
  {| playing := playing c; current_speed := current_speed c;
     current_pitch := current_pitch c; is_playing := b;
     last_update_time := last_update_time c;
     update_interval := update_interval c; last_speed := last_speed c;
     last_pitch := last_pitch c; speed_threshold := speed_threshold c;
     pitch_threshold := pitch_threshold c; paused := paused c;
     _last_speed := _last_speed c; _last_pitch := _last_pitch c;
     hand_count := hand_count c |}.

Definition set_last_update_time (v : R) (c : Controller) : Controller :=
  {| playing := playing c; current_speed := current_speed c;
     current_pitch := current_pitch c; is_playing := is_playing c;
     last_update_time := v;
     update_interval := update_interval c; last_speed := last_speed c;
     last_pitch := last_pitch c; speed_threshold := speed_threshold c;
     pitch_threshold := pitch_threshold c; paused := paused c;
     _last_speed := _last_speed c; _last_pitch := _last_pitch c;
     hand_count := hand_count c |}.

Definition set_last_speed (v : R) (c : Controller) : Controller :=
  {| playing := playing c; current_speed := current_speed c;
     current_pitch := current_pitch c; is_playing := is_playing c;
     last_update_time := last_update_time c;
     update_interval := update_interval c; last_speed := v;
     last_pitch := last_pitch c; speed_threshold := speed_threshold c;
     pitch_threshold := pitch_threshold c; paused := paused c;
     _last_speed := _last_speed c; _last_pitch := _last_pitch c;
     hand_count := hand_count c |}.

Definition set_last_pitch (v : R) (c : Controller) : Controller :=
  {| playing := playing c; current_speed := current_speed c;
     current_pitch := current_pitch c; is_playing := is_playing c;
     last_update_time := last_update_time c;
     update_interval := update_interval c; last_speed := last_speed c;
     last_pitch := v; speed_threshold := speed_threshold c;
     pitch_threshold := pitch_threshold c; paused := paused c;
     _last_speed := _last_speed c; _last_pitch := _last_pitch c;
     hand_count := hand_count c |}.

Definition set_paused (b : bool) (c : Controller) : Controller :=
  {| playing := playing c; current_speed := current_speed c;
     current_pitch := current_pitch c; is_playing := is_playing c;
     last_update_time := last_update_time c;
     update_interval := update_interval c; last_speed := last_speed c;
     last_pitch := last_pitch c; speed_threshold := speed_threshold c;
     pitch_threshold := pitch_threshold c; paused := b;
     _last_speed := _last_speed c; _last_pitch := _last_pitch c;
     hand_count := hand_count c |}.

Definition set__last_speed (v : R) (c : Controller) : Controller :=
  {| playing := playing c; current_speed := current_speed c;
     current_pitch := current_pitch c; is_playing := is_playing c;
     last_update_time := last_update_time c;
     update_interval := update_interval c; last_speed := last_speed c;
     last_pitch := last_pitch c; speed_threshold := speed_threshold c;
     pitch_threshold := pitch_threshold c; paused := paused c;
     _last_speed := Some v; _last_pitch := _last_pitch c;
     hand_count := hand_count c |}.

Definition set__last_pitch (v : R) (c : Controller) : Controller :=
  {| playing := playing c; current_speed := current_speed c;
     current_pitch := current_pitch c; is_playing := is_playing c;
     last_update_time := last_update_time c;
     update_interval := update_interval c; last_speed := last_speed c;
     last_pitch := last_pitch c; speed_threshold := speed_threshold c;
     pitch_threshold := pitch_threshold c; paused := paused c;
     _last_speed := _last_speed c; _last_pitch := Some v;
     hand_count := hand_count c |}.

Definition set_hand_count (n : nat) (c : Controller) : Controller :=
  {| playing := playing c; current_speed := current_speed c;
     current_pitch := current_pitch c; is_playing := is_playing c;
     last_update_time := last_update_time c;
     update_interval := update_interval c; last_speed := last_speed c;
     last_pitch := last_pitch c; speed_threshold := speed_threshold c;
     pitch_threshold := pitch_threshold c; paused := paused c;
     _last_speed := _last_speed c; _last_pitch := _last_pitch c;
     hand_count := Some n |}.

Definition set_started (n : nat) (w : World) : World :=
  {| self := self w; mixer := mixer w; started := n;
     running := running w; time_time := time_time w;
     clock_reads := clock_reads w; calls := calls w;
     temp_output := temp_output w |}.

Definition set_running (js : list Job) (w : World) : World :=
  {| self := self w; mixer := mixer w; started := started w;
     running := js; time_time := time_time w;
     clock_reads := clock_reads w; calls := calls w;
     temp_output := temp_output w |}.

Definition set_temp_output (f : TempFile) (w : World) : World :=
  {| self := self w; mixer := mixer w; started := started w;
     running := running w; time_time := time_time w;
     clock_reads := clock_reads w; calls := calls w;
     temp_output := f |}.

(** ** GestureController *)

(** The state after [__init__]: the file is loaded and plays in a loop
    ([play(-1)]), the mixer's volume is pygame's default. *)
Definition __init__ (clock : nat -> R) : World :=
  {| self :=
       {| playing := false; current_speed := 1.0; current_pitch := 0.0;
          is_playing := true; last_update_time := 0;
          update_interval := 0.2; last_speed := 1.0; last_pitch := 0.0;
          speed_threshold := 0.05; pitch_threshold := 0.5;
          paused := false; _last_speed := None; _last_pitch := None;
          hand_count := None |};
     mixer := {| loaded := Original; status := Playing (-1); volume := 1.0 |};
     started := 0; running := []; time_time := clock; clock_reads := 0;
     calls := [music_load Original; music_play (-1)];
     temp_output := created_empty |}.

(** [time.time()]: the next value of the clock. *)
Definition time_now (w : World) : R := time_time w (clock_reads w).

Definition tick (w : World) : World :=
  {| self := self w; mixer := mixer w; started := started w;
     running := running w; time_time := time_time w;
     clock_reads := S (clock_reads w); calls := calls w;
     temp_output := temp_output w |}.

(** [adjust_audio]: the rate limit, then a thread on [_process_audio].
    Creating the thread is taken to succeed. *)
Definition adjust_audio (w : World) : World :=
  let current_time := time_now w in
  let w := tick w in
  if Rlt_dec (current_time - last_update_time (self w))
             (update_interval (self w))
  then w
  else
    let w := with_self (set_last_update_time current_time) w in
    set_started (S (started w)) (call Thread_start w).

(** Where a render pass raises, if it does. *)
Inductive Outcome : Type :=
| time_stretch_raises
| pitch_shift_raises
| sf_write_raises
| music_load_raises
| music_play_raises
| no_exception.

(** The [except Exception] handler of [_process_audio]. *)
Definition except_Exception (w : World) : World :=
  call (print_error_in_audio_processing
          (current_speed (self w)) (current_pitch (self w))) w.

(** [_process_audio], first part: a started thread begins to run, and unless
    [paused] calls [pyrb.time_stretch] with the [current_speed] of that
    moment. *)
Definition _process_audio (w : World) : World :=
  match started w with
  | O => w
  | S n =>
    let w := set_started n w in
    if paused (self w) then w
    else
      let speed := current_speed (self w) in
      set_running (running w ++ [{| stretching_at := speed |}])
                  (call (pyrb_time_stretch speed) w)
  end.

(** [_process_audio], from the return of [pyrb.time_stretch] on, for the
    oldest running thread.  A call that raises is in the trace; a failed
    [music.load] keeps what the mixer had.  [sf.write] writes the temporary
    file, the same one for every render: when it returns the file holds the
    new render, when it raises the file holds what the write left. *)
Definition _process_audio_resume (o : Outcome) (w : World) : World :=
  match running w with
  | [] => w
  | job :: rest =>
    let w := set_running rest w in
    match o with
    | time_stretch_raises => except_Exception w
    | _ =>
      let n_steps := py_round (current_pitch (self w)) in
      let w := call (pyrb_pitch_shift n_steps) w in
      match o with
      | pitch_shift_raises => except_Exception w
      | _ =>
        let w := call sf_write w in
        match o with
        | sf_write_raises =>
          except_Exception (set_temp_output left_by_failed_write w)
        | _ =>
          let w := set_temp_output (render_of (stretching_at job) n_steps) w in
          let track := Rendered (stretching_at job) n_steps in
          let w := call (music_load track) w in
          match o with
          | music_load_raises => except_Exception w
          | _ =>
            let w := with_mixer (music.load track) w in
            let w := call (music_play 0) w in
            match o with
            | music_play_raises => except_Exception w
            | _ =>
              let w := with_mixer (music.play 0) w in
              let w := with_self (set_is_playing true) w in
              call (print_audio_processed (current_speed (self w))
                                          (current_pitch (self w))) w
            end
          end
        end
      end
    end
  end.

(** *** handle_gestures *)

(** Lines 131-135: the speed candidate of the first hand. *)
Definition speed_check (new_speed : R) (w : World) : World :=
  if Rgt_dec (Rabs (new_speed - last_speed (self w)))
             (speed_threshold (self w))
  then
    let w := with_self (set_current_speed new_speed) w in
    let w := with_self (set_last_speed new_speed) w in
    adjust_audio w
  else w.

(** Lines 143-146: the pitch candidate of the second hand. *)
Definition frequency_check (frequency_shift : R) (w : World) : World :=
  if Rgt_dec (Rabs (frequency_shift - current_pitch (self w)))
             (pitch_threshold (self w))
  then
    let w := with_self (set_current_pitch frequency_shift) w in
    adjust_audio w
  else w.

(** Lines 156-163: the pitch candidate of the hand being handled. *)
Definition pitch_check (new_pitch : R) (w : World) : World :=
  if Rgt_dec (Rabs (new_pitch - last_pitch (self w)))
             (pitch_threshold (self w))
  then
    let w := with_self (set_current_pitch new_pitch) w in
    let w := with_self (set_last_pitch new_pitch) w in
    let w := adjust_audio w in
    call (print_pitch_updated (current_pitch (self w))) w
  else w.

(** The two maps from a pinch distance. *)
Definition speed_of_pinch (pinch_distance : R) : R :=
  clip (1.0 + (pinch_distance - 0.1) * 2.0) 0.5 2.0.

Definition pitch_of_pinch (pinch_distance : R) : R :=
  clip ((pinch_distance - 0.1) * 48 - 12) (-12) 12.

(** Lines 111-146, the body of [if len(all_hand_landmarks) == 2]. *)
Definition two_hands (hand1_landmarks hand2_landmarks : Hand) (w : World)
  : World :=
  let hand_distance :=
    utils.calculate_distance (landmark hand1_landmarks WRIST)
                             (landmark hand2_landmarks WRIST) in
  let volume := clip hand_distance 0.0 1.0 in
  let w := with_mixer (music.set_volume volume)
                      (call (music_set_volume volume) w) in
  let thumb_tip1 := landmark hand1_landmarks THUMB_TIP in
  let index_tip1 := landmark hand1_landmarks INDEX_FINGER_TIP in
  let pinch_distance1 := utils.calculate_distance thumb_tip1 index_tip1 in
  let new_speed := speed_of_pinch pinch_distance1 in
  let w := speed_check new_speed w in
  let thumb_tip2 := landmark hand2_landmarks THUMB_TIP in
  let index_tip2 := landmark hand2_landmarks INDEX_FINGER_TIP in
  let pinch_distance2 := utils.calculate_distance thumb_tip2 index_tip2 in
  let frequency_shift := pitch_of_pinch pinch_distance2 in
  frequency_check frequency_shift w.

(** Lines 148-163, run for every hand. *)
Definition one_hand (hand_landmarks : Hand) (w : World) : World :=
  let thumb_tip := landmark hand_landmarks THUMB_TIP in
  let index_tip := landmark hand_landmarks INDEX_FINGER_TIP in
  let pinch_distance := utils.calculate_distance thumb_tip index_tip in
  let new_pitch := pitch_of_pinch pinch_distance in
  pitch_check new_pitch w.

Definition handle_gestures (hand_landmarks : Hand)
    (all_hand_landmarks : list Hand) (w : World) : World :=
  let w :=
    match all_hand_landmarks with
    | [hand1_landmarks; hand2_landmarks] =>
      two_hands hand1_landmarks hand2_landmarks w
    | _ => w
    end in
  one_hand hand_landmarks w.

(** [process_frame], from the detector's result on (lines 97-102); the
    drawing on the frame is left out. *)
Definition process_frame (multi_hand_landmarks : list Hand) (w : World)
  : World :=
  match multi_hand_landmarks with
  | [] => w
  | _ =>
    let w := with_self (set_hand_count (length multi_hand_landmarks)) w in
    fold_left
      (fun w hand_landmarks =>
         handle_gestures hand_landmarks multi_hand_landmarks w)
      multi_hand_landmarks w
  end.

Definition stop_audio (w : World) : World :=
  if is_playing (self w)
  then with_self (set_is_playing false)
                 (with_mixer music.stop (call music_stop w))
  else w.

Definition toggle_play_pause (w : World) : World :=
  if is_playing (self w) then
    let w :=
      if paused (self w)
      then call print_resuming
                (with_mixer music.unpause (call music_unpause w))
      else call print_pausing
                (with_mixer music.pause (call music_pause w)) in
    with_self (set_paused (negb (paused (self w)))) w
  else
    let w := with_mixer (music.play (-1)) (call (music_play (-1)) w) in
    let w := with_self (set_is_playing true) w in
    call print_starting w.

Definition reset_controls (w : World) : World :=
  let w := call print_resetting w in
  let w := with_self (set_current_speed 1.0) w in
  let w := with_self (set_current_pitch 0.0) w in
  let w := with_self (set__last_speed 1.0) w in
  let w := with_self (set__last_pitch 0.0) w in
  let w := adjust_audio w in
  if negb (is_playing (self w)) then
    let w := with_mixer (music.play (-1)) (call (music_play (-1)) w) in
    let w := with_self (set_is_playing true) w in
    with_self (set_paused false) w
  else w.

(** ** A session

    What happens to a controller, one event at a time: a frame of the main
    loop, a key, or a render thread being scheduled. *)
Inductive Event : Type :=
| frame (multi_hand_landmarks : list Hand)
| key_p
| key_r
| thread_begins
| thread_resumes (o : Outcome).

Definition step (w : World) (e : Event) : World :=
  match e with
  | frame hands => process_frame hands w
  | key_p => toggle_play_pause w
  | key_r => reset_controls w
  | thread_begins => _process_audio w
  | thread_resumes o => _process_audio_resume o w
  end.

Definition run (w : World) (es : list Event) : World := fold_left step es w.

(** The invariant of the playback parameters. *)
Definition in_range (w : World) : Prop :=
  0.5 <= current_speed (self w) <= 2.0 /\
  -12 <= current_pitch (self w) <= 12.

(** ** Vocabulary of the statements *)

(** The thumb-to-index distance of a hand, as [handle_gestures] computes
    it three times. *)
Definition pinch_distance (hand_landmarks : Hand) : R :=
  utils.calculate_distance (landmark hand_landmarks THUMB_TIP)
                           (landmark hand_landmarks INDEX_FINGER_TIP).

Definition wrist_distance (hand1_landmarks hand2_landmarks : Hand) : R :=
  utils.calculate_distance (landmark hand1_landmarks WRIST)
                           (landmark hand2_landmarks WRIST).

(** How often a trace calls [pygame.mixer.music.set_volume]. *)
Definition is_set_volume (c : Call) : bool :=
  match c with music_set_volume _ => true | _ => false end.

Definition set_volume_calls (cs : list Call) : nat :=
  length (filter is_set_volume cs).

(** A hand on the line [y = 0]: wrist and thumb tip at [wrist_x], index
    fingertip [pinch] to the right of the thumb. *)
Definition hand_at (wrist_x pinch : R) : Hand :=
  {| landmark := fun role =>
       match role with
       | WRIST => {| utils.x := wrist_x; utils.y := 0 |}
       | THUMB_TIP => {| utils.x := wrist_x; utils.y := 0 |}
       | INDEX_FINGER_TIP => {| utils.x := wrist_x + pinch; utils.y := 0 |}
       end |}.

(** A clock that stands at [t0] for the first reading and at [t1] after. *)
Definition clock_of (t0 t1 : R) : nat -> R :=
  fun n => match n with O => t0 | S _ => t1 end.

(** How often a trace starts a render thread. *)
Definition is_Thread_start (c : Call) : bool :=
  match c with Thread_start => true | _ => false end.

Definition thread_starts (cs : list Call) : nat :=
  length (filter is_Thread_start cs).

(** The three candidates of [handle_gestures], by the name the code gives
    them, with the check each goes through and the test of that check. *)
Inductive Candidate : Type :=
| new_speed (v : R)
| frequency_shift (v : R)
| new_pitch (v : R).

Definition check (c : Candidate) : World -> World :=
  match c with
  | new_speed v => speed_check v
  | frequency_shift v => frequency_check v
  | new_pitch v => pitch_check v
  end.

Definition passes (c : Candidate) (w : World) : Prop :=
  match c with
  | new_speed v =>
    Rabs (v - last_speed (self w)) > speed_threshold (self w)
  | frequency_shift v =>
    Rabs (v - current_pitch (self w)) > pitch_threshold (self w)
  | new_pitch v =>
    Rabs (v - last_pitch (self w)) > pitch_threshold (self w)
  end.

Definition is_current (c : Candidate) (w : World) : Prop :=
  match c with
  | new_speed v => current_speed (self w) = v
  | frequency_shift v => current_pitch (self w) = v
  | new_pitch v => current_pitch (self w) = v
  end.

(** When the render thread started by a first candidate runs, relative to
    the arrival of a second candidate. *)
Inductive Schedule : Type :=
| renders_before      (* the whole of [_process_audio] before the second *)
| stretches_across    (* [time_stretch] is called before, returns after *)
| renders_after.      (* the whole of [_process_audio] after the second *)

Definition two_candidates (s : Schedule) (c1 c2 : Candidate) (w : World)
  : World :=
  let w1 := check c1 w in
  match s with
  | renders_before =>
    check c2 (_process_audio_resume no_exception (_process_audio w1))
  | stretches_across =>
    _process_audio_resume no_exception (check c2 (_process_audio w1))
  | renders_after =>
    _process_audio_resume no_exception (_process_audio (check c2 w1))
  end.

(** Two candidates 50ms apart, the first at least 200ms after the last
    render, both passing their value test, no other render under way. *)
Definition fifty_ms_apart (c1 c2 : Candidate) (w : World) : Prop :=
  update_interval (self w) = 0.2 /\
  time_now w - last_update_time (self w) >= 0.2 /\
  time_time w (S (clock_reads w)) = time_now w + 0.05 /\
  passes c1 w /\ passes c2 (check c1 w) /\
  paused (self w) = false /\ started w = 0%nat /\ running w = [].

(** The sentence of the specification on that scenario: one render, with
    the later candidate's value, however the thread is scheduled. *)
Definition later_value_is_rendered : Prop :=
  forall (s : Schedule) (c1 c2 : Candidate) (w : World),
    fifty_ms_apart c1 c2 w ->
    thread_starts (calls (two_candidates s c1 c2 w)) =
      S (thread_starts (calls w)) /\
    match c2 with
    | new_speed v =>
      exists n, loaded (mixer (two_candidates s c1 c2 w)) = Rendered v n
    | frequency_shift v | new_pitch v =>
      exists speed,
        loaded (mixer (two_candidates s c1 c2 w)) =
        Rendered speed (py_round v)
    end.

(** ** What is heard *)

(** The audio the mixer streams: the file given at start, or the temporary
    file with what it holds now. *)
Inductive Audio : Type :=
| the_audio_file
| the_temp_output (content : TempFile).

Definition streamed (w : World) : Audio :=
  match loaded (mixer w) with
  | Original => the_audio_file
  | Rendered _ _ => the_temp_output (temp_output w)
  end.

(** The sentence of the specification on a render pass that raises: the
    audio loaded before and the playing state are as they were. *)
Definition failure_keeps_the_loaded_audio : Prop :=
  forall (o : Outcome) (w : World) (job : Job) (rest : list Job),
    running w = job :: rest ->
    o = time_stretch_raises \/ o = pitch_shift_raises \/
    o = sf_write_raises \/ o = music_load_raises ->
    streamed (_process_audio_resume o w) = streamed w /\
    mixer (_process_audio_resume o w) = mixer w /\
    is_playing (self (_process_audio_resume o w)) = is_playing (self w).

(** ** Vocabulary of the session properties *)

(** Calls of [pygame.mixer.music.play(-1)]. *)
Definition is_looping_play (c : Call) : bool :=
  match c with music_play l => (l =? -1)%Z | _ => false end.

Definition looping_plays (cs : list Call) : nat :=
  length (filter is_looping_play cs).

(** What the audio engine (pyrubberband) is asked for. *)
Definition engine_call_in_range (c : Call) : Prop :=
  match c with
  | pyrb_time_stretch speed => 0.8 <= speed <= 2.0
  | pyrb_pitch_shift n_steps => (-12 <= n_steps <= 12)%Z
  | _ => True
  end.

Definition track_in_range (t : Track) : Prop :=
  match t with
  | Original => True
  | Rendered speed semitones =>
    0.8 <= speed <= 2.0 /\ (-12 <= semitones <= 12)%Z
  end.

Definition candidate_in_range (c : Candidate) : Prop :=
  match c with
  | new_speed v => 0.8 <= v <= 2.0
  | frequency_shift v => -12 <= v <= 12
  | new_pitch v => -12 <= v <= 12
  end.

(** What holds of every state of a session.  The speed is not below 0.8:
    a distance is not negative, and [1.0 + (0 - 0.1) * 2.0] is 0.8. *)
Definition session_ok (w : World) : Prop :=
  (0.8 <= current_speed (self w) <= 2.0 /\
   -12 <= current_pitch (self w) <= 12) /\
  0 <= volume (mixer w) <= 1 /\
  is_playing (self w) = true /\
  (speed_threshold (self w) = 0.05 /\ pitch_threshold (self w) = 0.5 /\
   update_interval (self w) = 0.2) /\
  Forall (fun job => 0.8 <= stretching_at job <= 2.0) (running w) /\
  Forall engine_call_in_range (calls w) /\
  track_in_range (loaded (mixer w)) /\
  looping_plays (calls w) = 1%nat /\
  ~ In print_starting (calls w).

(** The time gate of [adjust_audio] is shut, now and at every later
    reading of the clock. *)
Definition gate_shut (w : World) : Prop :=
  forall n, (clock_reads w <= n)%nat ->
            time_time w n - last_update_time (self w)
            < update_interval (self w).

(** ** camera_selector.py *)

Module CameraSelector.

(** What [input()] returns, as [int()] takes it: a number, or a text for
    which [int()] raises [ValueError]. *)
Inductive Line : Type :=
| number (selected_index : Z)
| not_a_number.

Inductive Message : Type :=
| default_camera_not_available
| no_cameras_found
| available_cameras_header
| camera_line (index : nat) (status : bool)
| enter_the_index                 (* the prompt of [input()] *)
| invalid_camera_index
| invalid_input_enter_a_number    (* the [ValueError] handler *)
| invalid_input_between.          (* the [IndexError] handler *)

(** The machine around the selector: [isOpened n i] is whether the [n]-th
    [cv2.VideoCapture] made, asked for index [i], is opened; [held] are the
    captures opened and not released. *)
Record Env : Type := {
  isOpened : nat -> nat -> bool;
  captures : nat;
  held : list nat;
  stdin : list Line;
  stdout : list Message
}.

Record Self : Type := { max_cameras_to_check : nat }.

Definition __init__ : Self := {| max_cameras_to_check := 10 |}.

Definition VideoCapture (i : nat) (env : Env) : bool * Env :=
  let opened := isOpened env (captures env) i in
  (opened,
   {| isOpened := isOpened env; captures := S (captures env);
      held := if opened then i :: held env else held env;
      stdin := stdin env; stdout := stdout env |}).

Fixpoint release_one (i : nat) (caps : list nat) : list nat :=
  match caps with
  | [] => []
  | c :: caps' => if Nat.eqb c i then caps' else c :: release_one i caps'
  end.

Definition release (i : nat) (env : Env) : Env :=
  {| isOpened := isOpened env; captures := captures env;
     held := release_one i (held env);
     stdin := stdin env; stdout := stdout env |}.

Definition print (m : Message) (env : Env) : Env :=
  {| isOpened := isOpened env; captures := captures env; held := held env;
     stdin := stdin env; stdout := stdout env ++ [m] |}.

Definition get_available_cameras (self : Self) (env : Env)
  : list (nat * bool) * Env :=
  fold_left
    (fun (acc : list (nat * bool) * Env) (i : nat) =>
       let (available_cameras, env) := acc in
       let (opened, env) := VideoCapture i env in
       if opened
       then (available_cameras ++ [(i, true)], release i env)
       else (available_cameras ++ [(i, false)], env))
    (seq 0 (max_cameras_to_check self)) ([], env).

(** [l[i]] of Python on a list: a negative index counts from the end, and
    an index out of range raises [IndexError] ([None]). *)
Definition py_getitem {A : Type} (l : list A) (i : Z) : option A :=
  if (0 <=? i)%Z then nth_error l (Z.to_nat i)
  else if (- Z.of_nat (length l) <=? i)%Z
       then nth_error l (Z.to_nat (Z.of_nat (length l) + i))
       else None.

(** How a call of [select_camera] ends: it returns an index or [None], or
    [input()] finds the input closed and its [EOFError] is not handled. *)
Inductive Ending : Type :=
| returns (camera_index : option Z)
| raises_EOFError.

(** The [while True] loop, on the lines still to be read. *)
Fixpoint ask (self : Self) (available_cameras : list (nat * bool))
    (lines : list Line) (out : list Message)
  : Ending * list Line * list Message :=
  match lines with
  | [] => (raises_EOFError, [], out ++ [enter_the_index])
  | line :: lines' =>
    let out := out ++ [enter_the_index] in
    match line with
    | not_a_number =>
      ask self available_cameras lines'
          (out ++ [invalid_input_enter_a_number])
    | number selected_index =>
      if ((0 <=? selected_index)
          && (selected_index <? Z.of_nat (max_cameras_to_check self)))%Z
      then
        match py_getitem available_cameras selected_index with
        | None =>
          ask self available_cameras lines' (out ++ [invalid_input_between])
        | Some (_, status) =>
          if status then (returns (Some selected_index), lines', out)
          else ask self available_cameras lines'
                   (out ++ [invalid_camera_index])
        end
      else ask self available_cameras lines' (out ++ [invalid_camera_index])
    end
  end.

Definition select_camera (self : Self) (env : Env) : Ending * Env :=
  let default_camera_index := 0%nat in
  let (opened, env) := VideoCapture default_camera_index env in
  if opened then
    (returns (Some (Z.of_nat default_camera_index)),
     release default_camera_index env)
  else
    let env := print default_camera_not_available env in
    let (available_cameras, env) := get_available_cameras self env in
    if negb (existsb snd available_cameras) then
      (returns None, print no_cameras_found env)
    else
      let env := print available_cameras_header env in
      let env :=
        fold_left
          (fun env (entry : nat * bool) =>
             let (index, status) := entry in
             print (camera_line index status) env)
          available_cameras env in
      let '(ending, lines, out) :=
        ask self available_cameras (stdin env) (stdout env) in
      (ending,
       {| isOpened := isOpened env; captures := captures env;
          held := held env; stdin := lines; stdout := out |}).

(** The environment after [n] more captures, all released. *)
Definition after_captures (n : nat) (env : Env) : Env :=
  {| isOpened := isOpened env; captures := n + captures env;
     held := held env; stdin := stdin env; stdout := stdout env |}.

(** What a scan lists when its first capture is the [from]-th. *)
Definition scanned (self : Self) (env : Env) (from : nat)
  : list (nat * bool) :=
  map (fun i => (i, isOpened env (from + i) i))
      (seq 0 (max_cameras_to_check self)).

(** What [select_camera] has printed when it starts to ask. *)
Definition listing (available_cameras : list (nat * bool)) : list Message :=
  [default_camera_not_available; available_cameras_header] ++
  map (fun entry : nat * bool => camera_line (fst entry) (snd entry))
      available_cameras.

(** An input line that ends the loop. *)
Definition acceptable (self : Self) (available_cameras : list (nat * bool))
    (line : Line) : bool :=
  match line with
  | not_a_number => false
  | number z =>
    ((0 <=? z) && (z <? Z.of_nat (max_cameras_to_check self)))%Z
    && match py_getitem available_cameras z with
       | Some (_, status) => status
       | None => false
       end
  end.

(** Two machines for examples: one where only camera 2 opens and the
    user types a text, 5, 2 and 7; one without any camera. *)
Definition only_camera_2 : Env :=
  {| isOpened := fun _ i => Nat.eqb i 2; captures := 0; held := [];
     stdin := [not_a_number; number 5; number 2; number 7];
     stdout := [] |}.

Definition no_camera_at_all : Env :=
  {| isOpened := fun _ _ => false; captures := 0; held := [];
     stdin := [number 0]; stdout := [] |}.

Definition camera_0_opens : Env :=
  {| isOpened := fun _ i => Nat.eqb i 0; captures := 0; held := [];
     stdin := []; stdout := [] |}.

End CameraSelector.

(** ** gesture_controller.py: the end of a session *)

(** What [cleanup] acts on beside the controller: the mixer module and the
    temporary file of the renders. *)
Record Process : Type := {
  controller : World;
  mixer_initialized : bool;
  temp_output_exists : bool
}.

(** [cleanup]; [unlinked] is whether [os.unlink] succeeds (its exception is
    passed over). *)
Definition cleanup (unlinked : bool) (p : Process) : Process :=
  {| controller := stop_audio (controller p);
     mixer_initialized := false;
     temp_output_exists :=
       if unlinked then false else temp_output_exists p |}.

(** ** main.py *)

(** What the main loop meets: an iteration, with what [cap.read()], the
    detector and [cv2.waitKey(1)] give it, or a render thread being run. *)
Inductive Tick : Type :=
| iteration (ret : bool) (multi_hand_landmarks : list Hand) (waitKey : Z)
| render_thread_begins
| render_thread_resumes (o : Outcome).

(** [ord('q')], [ord('p')], [ord('r')]. *)
Definition ord_q : Z := 113.
Definition ord_p : Z := 112.
Definition ord_r : Z := 114.

(** The [while True] loop of [main]: the state when the loop is left
    ([Some]) with the ticks not looked at, or the state it is in when the
    ticks end ([None]). *)
Fixpoint main_loop (ticks : list Tick) (w : World)
  : World * option (list Tick) :=
  match ticks with
  | [] => (w, None)
  | render_thread_begins :: ticks' => main_loop ticks' (_process_audio w)
  | render_thread_resumes o :: ticks' =>
    main_loop ticks' (_process_audio_resume o w)
  | iteration ret multi_hand_landmarks waitKey :: ticks' =>
    if negb ret then (w, Some ticks')
    else
      let w := process_frame multi_hand_landmarks w in
      let key := Z.land waitKey 255 in
      if (key =? ord_q)%Z then (w, Some ticks')
      else if (key =? ord_p)%Z then main_loop ticks' (toggle_play_pause w)
      else if (key =? ord_r)%Z then main_loop ticks' (reset_controls w)
      else main_loop ticks' w
  end.

(** A tick at which the loop is left: a frame that cannot be read, or a
    key whose low byte is [q]. *)
Definition leaves_loop (t : Tick) : bool :=
  match t with
  | iteration ret _ waitKey => negb ret || (Z.land waitKey 255 =? ord_q)%Z
  | _ => false
  end.

(** How [main] ends. *)
Inductive Exit : Type :=
| audio_file_not_found
| no_camera
| input_closed                 (* the [EOFError] of the prompt *)
| could_not_open_video_stream
| quit (p : Process) (env : CameraSelector.Env) (unread : list Tick)
| running_on (w : World).

(** [main]: [audio_exists] is [os.path.exists(args.audio)], [args_camera]
    the value of [--camera]. *)
Definition main (audio_exists : bool) (args_camera : Z)
    (env : CameraSelector.Env) (clock : nat -> R) (unlinked : bool)
    (ticks : list Tick) : Exit :=
  if negb audio_exists then audio_file_not_found
  else
    let camera_selector := CameraSelector.__init__ in
    let (ending, env) := CameraSelector.select_camera camera_selector env in
    match ending with
    | CameraSelector.raises_EOFError => input_closed
    | CameraSelector.returns None => no_camera
    | CameraSelector.returns (Some camera_index) =>
      let (opened, env) :=
        CameraSelector.VideoCapture (Z.to_nat camera_index) env in
      if negb opened then could_not_open_video_stream
      else
        let controller := __init__ clock in
        match main_loop ticks controller with
        | (w, None) => running_on w
        | (w, Some unread) =>
          quit (cleanup unlinked
                  {| controller := w; mixer_initialized := true;
                     temp_output_exists := true |})
               (CameraSelector.release (Z.to_nat camera_index) env)
               unread
        end
    end.

(** * Properties *)

(** ** The distance and the two maps *)

Section Clip.

Variables a_min a_max : R.
Hypothesis ordered : a_min <= a_max.

Lemma clip_bounds (a : R) : a_min <= clip a a_min a_max <= a_max.
Proof.
  unfold clip, Rmin, Rmax.
  destruct (Rle_dec a a_min); destruct (Rle_dec _ a_max); lra.
Qed.

Lemma clip_monotone (a b : R) :
  a <= b -> clip a a_min a_max <= clip b a_min a_max.
Proof.
  intros Hab. unfold clip.
  apply Rle_min_compat_r, Rle_max_compat_r, Hab.
Qed.

Lemma clip_inside (a : R) : a_min <= a <= a_max -> clip a a_min a_max = a.
Proof.
  intros [Hlo Hhi]. unfold clip.
  rewrite (Rmax_left a a_min Hlo). apply Rmin_left, Hhi.
Qed.

End Clip.

Lemma speed_of_pinch_range (pinch_distance : R) :
  0.5 <= speed_of_pinch pinch_distance <= 2.0.
Proof. unfold speed_of_pinch. apply clip_bounds. lra. Qed.

Lemma pitch_of_pinch_range (pinch_distance : R) :
  -12 <= pitch_of_pinch pinch_distance <= 12.
Proof. unfold pitch_of_pinch. apply clip_bounds. lra. Qed.

(** C7: the pitch derived from any pinch distance lies in [-12, 12], and the
    map from pinch distance to pitch is monotonically non-decreasing. *)
Theorem pitch_of_pinch_bounded_monotone :
  (forall d : R, -12 <= pitch_of_pinch d <= 12) /\
  (forall d : R, pitch_of_pinch d = clip ((d - 0.1) * 48 - 12) (-12) 12) /\
  (forall d1 d2 : R, d1 <= d2 -> pitch_of_pinch d1 <= pitch_of_pinch d2).
Proof.
  split; [exact pitch_of_pinch_range | split; [reflexivity |]].
  intros d1 d2 Hd. unfold pitch_of_pinch.
  apply clip_monotone. lra.
Qed.

Lemma pitch_of_pinch_bounded_monotone_witness :
  0.2 <= 0.3 /\ pitch_of_pinch 0.2 <= pitch_of_pinch 0.3 /\
  -12 <= pitch_of_pinch 0.3 <= 12.
Proof.
  destruct pitch_of_pinch_bounded_monotone as (Hrange & _ & Hmono).
  assert (Hle : 0.2 <= 0.3) by lra.
  split; [exact Hle |].
  split; [exact (Hmono 0.2 0.3 Hle) | exact (Hrange 0.3)].
Defined.

(** C8: the distance is symmetric, the distance of a landmark to itself is
    0, and the distance is the square root of the sum of the squared
    coordinate differences, a function of the two landmarks alone. *)
Theorem calculate_distance_symmetric_zero :
  (forall a b, utils.calculate_distance a b = utils.calculate_distance b a) /\
  (forall a, utils.calculate_distance a a = 0) /\
  (forall a b,
      utils.calculate_distance a b =
      sqrt ((utils.x a - utils.x b) ^ 2 + (utils.y a - utils.y b) ^ 2)).
Proof.
  split; [| split].
  - intros a b. unfold utils.calculate_distance. f_equal. ring.
  - intros a. unfold utils.calculate_distance.
    replace ((utils.x a - utils.x a) ^ 2 + (utils.y a - utils.y a) ^ 2)
      with 0 by ring.
    exact sqrt_0.
  - reflexivity.
Qed.

(** ** The volume the mixer keeps *)

Lemma c_int_steps (v : R) :
  0 <= v <= 1 ->
  c_int (v * 128) = Int_part (v * 128) /\
  (0 <= Int_part (v * 128) <= 128)%Z.
Proof.
  intros Hv. unfold c_int.
  destruct (Rle_dec 0 (v * 128)) as [_ | Hneg]; [| exfalso; lra].
  split; [reflexivity |].
  destruct (base_Int_part (v * 128)) as [Hle Hgt].
  assert (Hlo : IZR (-1) < IZR (Int_part (v * 128))) by lra.
  assert (Hhi : IZR (Int_part (v * 128)) < IZR 129) by lra.
  apply lt_IZR in Hlo, Hhi. lia.
Qed.

(** For a volume in [0, 1] the mixer keeps the multiple of 1/128 just
    below it. *)
Lemma kept_volume_unit (v current : R) :
  0 <= v <= 1 ->
  kept_volume v current = IZR (Int_part (v * 128)) / 128 /\
  v - 1 / 128 < kept_volume v current <= v.
Proof.
  intros Hv. destruct (c_int_steps v Hv) as [Hint Hsteps].
  assert (Hkept : kept_volume v current = IZR (Int_part (v * 128)) / 128).
  { unfold kept_volume. cbv zeta. rewrite Hint.
    destruct (Z.ltb_spec (Int_part (v * 128)) 0) as [Hlt | _]; [lia |].
    rewrite Z.min_l by lia. reflexivity. }
  split; [exact Hkept |]. rewrite Hkept.
  destruct (base_Int_part (v * 128)) as [Hle Hgt]. lra.
Qed.

Lemma kept_volume_half (current : R) : kept_volume 0.5 current = 0.5.
Proof.
  destruct (kept_volume_unit 0.5 current ltac:(lra)) as [-> _].
  replace (Int_part (0.5 * 128)) with 64%Z; [lra |].
  apply Int_part_spec. lra.
Qed.

Lemma kept_volume_range (v current : R) :
  0 <= current <= 1 -> 0 <= kept_volume v current <= 1.
Proof.
  intros Hcur. unfold kept_volume. cbv zeta.
  destruct (c_int (v * 128) <? 0)%Z eqn:Hneg; [exact Hcur |].
  apply Z.ltb_ge in Hneg.
  assert (Hlo : IZR 0 <= IZR (Z.min (c_int (v * 128)) 128))
    by (apply IZR_le; lia).
  assert (Hhi : IZR (Z.min (c_int (v * 128)) 128) <= IZR 128)
    by (apply IZR_le; lia).
  lra.
Qed.

Lemma kept_volume_twice (v current : R) :
  kept_volume v (kept_volume v current) = kept_volume v current.
Proof.
  unfold kept_volume. cbv zeta.
  destruct (c_int (v * 128) <? 0)%Z; reflexivity.
Qed.

(** ** What each operation leaves alone *)

Ltac split_ifs :=
  repeat match goal with
         | |- context [if ?c then _ else _] => destruct c
         end.

Lemma adjust_audio_self (w : World) :
  self (adjust_audio w) = self w \/
  self (adjust_audio w) = set_last_update_time (time_now w) (self w).
Proof. unfold adjust_audio. simpl. split_ifs; auto. Qed.

Lemma adjust_audio_mixer (w : World) : mixer (adjust_audio w) = mixer w.
Proof. unfold adjust_audio. simpl. split_ifs; reflexivity. Qed.

(** The projections of the controller that [adjust_audio] cannot change. *)
Lemma adjust_audio_params (w : World) :
  let c := self w in
  let c' := self (adjust_audio w) in
  current_speed c' = current_speed c /\ current_pitch c' = current_pitch c /\
  last_speed c' = last_speed c /\ last_pitch c' = last_pitch c /\
  speed_threshold c' = speed_threshold c /\
  pitch_threshold c' = pitch_threshold c /\
  update_interval c' = update_interval c /\
  is_playing c' = is_playing c /\ paused c' = paused c.
Proof.
  simpl. destruct (adjust_audio_self w) as [-> | ->]; simpl; tauto.
Qed.

Lemma in_range_adjust_audio (w : World) :
  in_range w -> in_range (adjust_audio w).
Proof.
  unfold in_range. destruct (adjust_audio_params w) as (-> & -> & _). tauto.
Qed.

Lemma in_range_call (c : Call) (w : World) : in_range w -> in_range (call c w).
Proof. exact (fun H => H). Qed.

Lemma in_range_speed_check (new_speed : R) (w : World) :
  0.5 <= new_speed <= 2.0 -> in_range w -> in_range (speed_check new_speed w).
Proof.
  intros Hs Hw. unfold speed_check. split_ifs; [| exact Hw].
  apply in_range_adjust_audio. destruct Hw as [_ Hp]. split; assumption.
Qed.

Lemma in_range_frequency_check (frequency_shift : R) (w : World) :
  -12 <= frequency_shift <= 12 -> in_range w ->
  in_range (frequency_check frequency_shift w).
Proof.
  intros Hp Hw. unfold frequency_check. split_ifs; [| exact Hw].
  apply in_range_adjust_audio. destruct Hw as [Hs _]. split; assumption.
Qed.

Lemma in_range_pitch_check (new_pitch : R) (w : World) :
  -12 <= new_pitch <= 12 -> in_range w -> in_range (pitch_check new_pitch w).
Proof.
  intros Hp Hw. unfold pitch_check. split_ifs; [| exact Hw].
  apply in_range_call, in_range_adjust_audio.
  destruct Hw as [Hs _]. split; assumption.
Qed.

Lemma in_range_handle_gestures (hand : Hand) (all : list Hand) (w : World) :
  in_range w -> in_range (handle_gestures hand all w).
Proof.
  intros Hw. unfold handle_gestures, one_hand.
  apply in_range_pitch_check; [apply pitch_of_pinch_range |].
  destruct all as [| h1 [| h2 [| h3 rest]]]; try exact Hw.
  unfold two_hands.
  apply in_range_frequency_check; [apply pitch_of_pinch_range |].
  apply in_range_speed_check; [apply speed_of_pinch_range |].
  exact Hw.
Qed.

Lemma in_range_hands (all todo : list Hand) (w : World) :
  in_range w ->
  in_range (fold_left (fun w0 hand => handle_gestures hand all w0) todo w).
Proof.
  revert w. induction todo as [| hand todo IH]; intros w Hw; simpl.
  - exact Hw.
  - apply IH, in_range_handle_gestures, Hw.
Qed.

Lemma in_range_process_frame (hands : list Hand) (w : World) :
  in_range w -> in_range (process_frame hands w).
Proof.
  intros Hw. unfold process_frame. destruct hands as [| h rest]; [exact Hw |].
  apply in_range_hands. exact Hw.
Qed.

Lemma in_range_toggle_play_pause (w : World) :
  in_range w -> in_range (toggle_play_pause w).
Proof. intros Hw. unfold toggle_play_pause. split_ifs; exact Hw. Qed.

Lemma in_range_reset_controls (w : World) : in_range (reset_controls w).
Proof.
  unfold reset_controls.
  match goal with
  | |- context [adjust_audio ?w0] =>
    assert (H : in_range (adjust_audio w0))
      by (apply in_range_adjust_audio; unfold in_range; simpl; lra);
    generalize dependent (adjust_audio w0)
  end.
  intros w1 Hw1. split_ifs; exact Hw1.
Qed.

Lemma in_range__process_audio (w : World) :
  in_range w -> in_range (_process_audio w).
Proof.
  intros Hw. unfold _process_audio. destruct (started w); [exact Hw |].
  simpl. split_ifs; exact Hw.
Qed.

Lemma in_range__process_audio_resume (o : Outcome) (w : World) :
  in_range w -> in_range (_process_audio_resume o w).
Proof.
  intros Hw. unfold _process_audio_resume.
  destruct (running w); [exact Hw |]. destruct o; exact Hw.
Qed.

Lemma in_range_stop_audio (w : World) : in_range w -> in_range (stop_audio w).
Proof. intros Hw. unfold stop_audio. split_ifs; exact Hw. Qed.

(** C4: every operation of the controller keeps the speed in [0.5, 2.0] and
    the pitch in [-12, 12], and the speed mapped from any pinch distance,
    [clip (1.0 + (pinch - 0.1) * 2.0) 0.5 2.0], lies in [0.5, 2.0]. *)
Theorem operations_keep_parameters_in_range
    (w : World) (e : Event) (pinch : R) :
  in_range w ->
  in_range (step w e) /\ in_range (stop_audio w) /\
  in_range (adjust_audio w) /\
  speed_of_pinch pinch = clip (1.0 + (pinch - 0.1) * 2.0) 0.5 2.0 /\
  0.5 <= speed_of_pinch pinch <= 2.0.
Proof.
  intros Hw. split; [| split; [| split; [| split]]].
  - destruct e; simpl.
    + apply in_range_process_frame, Hw.
    + apply in_range_toggle_play_pause, Hw.
    + apply in_range_reset_controls.
    + apply in_range__process_audio, Hw.
    + apply in_range__process_audio_resume, Hw.
  - apply in_range_stop_audio, Hw.
  - apply in_range_adjust_audio, Hw.
  - reflexivity.
  - apply speed_of_pinch_range.
Qed.

Lemma operations_keep_parameters_in_range_witness :
  in_range (__init__ (clock_of 1000 1000.05)) /\
  in_range (step (__init__ (clock_of 1000 1000.05))
                 (frame [hand_at 0.25 0.3; hand_at 0.75 0.3])) /\
  0.5 <= speed_of_pinch 5 <= 2.0.
Proof.
  assert (H0 : in_range (__init__ (clock_of 1000 1000.05)))
    by (unfold in_range; simpl; lra).
  split; [exact H0 |].
  destruct (operations_keep_parameters_in_range
              (__init__ (clock_of 1000 1000.05))
              (frame [hand_at 0.25 0.3; hand_at 0.75 0.3]) 5 H0)
    as (Hstep & _ & _ & _ & Hspeed).
  split; [exact Hstep | exact Hspeed].
Defined.

(** Every state a session reaches from [__init__] has its parameters in
    range. *)
Corollary session_in_range (clock : nat -> R) (es : list Event) :
  in_range (run (__init__ clock) es).
Proof.
  unfold run.
  assert (H0 : in_range (__init__ clock)) by (unfold in_range; simpl; lra).
  revert H0. generalize (__init__ clock).
  induction es as [| e es IH]; intros w Hw; simpl; [exact Hw |].
  apply IH. destruct e; simpl.
  - apply in_range_process_frame, Hw.
  - apply in_range_toggle_play_pause, Hw.
  - apply in_range_reset_controls.
  - apply in_range__process_audio, Hw.
  - apply in_range__process_audio_resume, Hw.
Qed.

(** ** reset_controls *)

(** The state [reset_controls] hands to [adjust_audio]. *)
Lemma reset_controls_unfold (w : World) :
  exists w0,
    reset_controls w =
      (let w1 := adjust_audio w0 in
       if negb (is_playing (self w1)) then
         with_self (set_paused false)
           (with_self (set_is_playing true)
              (with_mixer (music.play (-1)) (call (music_play (-1)) w1)))
       else w1) /\
    current_speed (self w0) = 1.0 /\ current_pitch (self w0) = 0.0 /\
    last_speed (self w0) = last_speed (self w) /\
    last_pitch (self w0) = last_pitch (self w) /\
    speed_threshold (self w0) = speed_threshold (self w) /\
    pitch_threshold (self w0) = pitch_threshold (self w) /\
    is_playing (self w0) = is_playing (self w) /\
    _last_speed (self w0) = Some 1.0 /\ _last_pitch (self w0) = Some 0.0.
Proof.
  eexists. split; [unfold reset_controls; reflexivity |].
  simpl. repeat split; reflexivity.
Qed.

(** C5: after [reset_controls] the current speed is 1.0 and the current
    pitch is 0.0, and when playback was stopped before, it is playing again:
    [is_playing] is true, [paused] is false and the mixer plays. *)
Theorem reset_controls_restores_defaults (w : World) :
  current_speed (self (reset_controls w)) = 1.0 /\
  current_pitch (self (reset_controls w)) = 0.0 /\
  (is_playing (self w) = false ->
   is_playing (self (reset_controls w)) = true /\
   paused (self (reset_controls w)) = false /\
   status (mixer (reset_controls w)) = Playing (-1)).
Proof.
  destruct (reset_controls_unfold w)
    as (w0 & -> & Hs & Hp & _ & _ & _ & _ & Hplay & _).
  cbv zeta.
  destruct (adjust_audio_params w0) as (Hs' & Hp' & _ & _ & _ & _ & _ & Hi & _).
  cbv zeta in Hs', Hp', Hi.
  destruct (is_playing (self (adjust_audio w0))) eqn:E; simpl.
  - rewrite Hs', Hp'. split; [exact Hs | split; [exact Hp |]].
    intros Hstopped. congruence.
  - rewrite Hs', Hp'. split; [exact Hs | split; [exact Hp |]].
    intros _. repeat split.
Qed.

Lemma reset_controls_restores_defaults_witness :
  is_playing (self (stop_audio (__init__ (clock_of 1000 1000.05)))) = false /\
  let w' := reset_controls (stop_audio (__init__ (clock_of 1000 1000.05))) in
  current_speed (self w') = 1.0 /\ current_pitch (self w') = 0.0 /\
  is_playing (self w') = true /\ paused (self w') = false /\
  status (mixer w') = Playing (-1).
Proof.
  split; [reflexivity |]. cbv zeta.
  destruct (reset_controls_restores_defaults
              (stop_audio (__init__ (clock_of 1000 1000.05))))
    as (Hs & Hp & Hresume).
  destruct (Hresume eq_refl) as (Hi & Hpa & Hst).
  repeat split; assumption.
Defined.

(** C6: [reset_controls] writes [_last_speed] and [_last_pitch] and leaves
    [last_speed] and [last_pitch] as they were, so the next speed and pitch
    candidates are compared with the values accepted before the reset. *)
Theorem reset_controls_keeps_last_accepted (w : World) :
  last_speed (self (reset_controls w)) = last_speed (self w) /\
  last_pitch (self (reset_controls w)) = last_pitch (self w) /\
  _last_speed (self (reset_controls w)) = Some 1.0 /\
  _last_pitch (self (reset_controls w)) = Some 0.0 /\
  (forall new_speed,
      current_speed (self (speed_check new_speed (reset_controls w))) =
      if Rgt_dec (Rabs (new_speed - last_speed (self w)))
                 (speed_threshold (self w))
      then new_speed else 1.0) /\
  (forall new_pitch,
      current_pitch (self (pitch_check new_pitch (reset_controls w))) =
      if Rgt_dec (Rabs (new_pitch - last_pitch (self w)))
                 (pitch_threshold (self w))
      then new_pitch else 0.0).
Proof.
  destruct (reset_controls_restores_defaults w) as (Hcs & Hcp & _).
  assert (Hkeep :
    last_speed (self (reset_controls w)) = last_speed (self w) /\
    last_pitch (self (reset_controls w)) = last_pitch (self w) /\
    speed_threshold (self (reset_controls w)) = speed_threshold (self w) /\
    pitch_threshold (self (reset_controls w)) = pitch_threshold (self w) /\
    _last_speed (self (reset_controls w)) = Some 1.0 /\
    _last_pitch (self (reset_controls w)) = Some 0.0).
  { destruct (reset_controls_unfold w)
      as (w0 & -> & _ & _ & Hls & Hlp & Hst & Hpt & _ & Hu1 & Hu2).
    cbv zeta.
    assert (Hu : _last_speed (self (adjust_audio w0)) = Some 1.0 /\
                 _last_pitch (self (adjust_audio w0)) = Some 0.0)
      by (destruct (adjust_audio_self w0) as [-> | ->]; simpl; auto).
    destruct (adjust_audio_params w0)
      as (_ & _ & Hls' & Hlp' & Hst' & Hpt' & _).
    cbv zeta in Hls', Hlp', Hst', Hpt'.
    destruct (negb (is_playing (self (adjust_audio w0)))); simpl;
      rewrite Hls', Hlp', Hst', Hpt'; tauto. }
  destruct Hkeep as (Hls & Hlp & Hst & Hpt & Hu1 & Hu2).
  repeat split; try assumption.
  - intros new_speed. unfold speed_check. rewrite Hls, Hst.
    destruct (Rgt_dec _ _); [| exact Hcs].
    match goal with
    | |- context [adjust_audio ?w0] =>
      destruct (adjust_audio_params w0) as (-> & _)
    end.
    reflexivity.
  - intros new_pitch. unfold pitch_check. rewrite Hlp, Hpt.
    destruct (Rgt_dec _ _); [| exact Hcp].
    match goal with
    | |- context [adjust_audio ?w0] =>
      destruct (adjust_audio_params w0) as (_ & Hp & _)
    end.
    simpl in *. exact Hp.
Qed.

(** ** Concrete hands and values *)

Lemma pinch_distance_hand_at (wrist_x pinch : R) :
  0 <= pinch -> pinch_distance (hand_at wrist_x pinch) = pinch.
Proof.
  intros Hp. unfold pinch_distance, utils.calculate_distance, hand_at.
  cbn [landmark utils.x utils.y].
  replace ((wrist_x - (wrist_x + pinch)) ^ 2 + (0 - 0) ^ 2)
    with (pinch ^ 2) by ring.
  apply sqrt_pow2, Hp.
Qed.

Lemma wrist_distance_hand_at (x1 x2 pinch1 pinch2 : R) :
  x1 <= x2 ->
  wrist_distance (hand_at x1 pinch1) (hand_at x2 pinch2) = x2 - x1.
Proof.
  intros Hx. unfold wrist_distance, utils.calculate_distance, hand_at.
  cbn [landmark utils.x utils.y].
  replace ((x1 - x2) ^ 2 + (0 - 0) ^ 2) with ((x2 - x1) ^ 2) by ring.
  apply sqrt_pow2. lra.
Qed.

Lemma speed_of_pinch_inside (d : R) :
  -0.15 <= d <= 0.6 -> speed_of_pinch d = 1.0 + (d - 0.1) * 2.0.
Proof. intros Hd. unfold speed_of_pinch. apply clip_inside. lra. Qed.

Lemma pitch_of_pinch_inside (d : R) :
  0.1 <= d <= 0.6 -> pitch_of_pinch d = (d - 0.1) * 48 - 12.
Proof. intros Hd. unfold pitch_of_pinch. apply clip_inside. lra. Qed.

(** Deciding the tests of the debouncer on known numbers. *)
Ltac by_Rabs := unfold Rabs; destruct (Rcase_abs _); lra.

Ltac decide_test :=
  match goal with
  | |- context [Rgt_dec ?a ?b] =>
    let H := fresh "Htest" in
    destruct (Rgt_dec a b) as [H | H];
    [ try contradiction; try (exfalso; revert H; by_Rabs)
    | try contradiction; try (exfalso; apply H; by_Rabs) ]
  | |- context [Rlt_dec ?a ?b] =>
    let H := fresh "Hgate" in
    destruct (Rlt_dec a b) as [H | H];
    [ try (exfalso; lra) | try (exfalso; apply H; lra) ]
  end.

(** Running the code on a state whose fields are known: the innermost
    operation, the one applied to an explicit record, is unfolded and its
    test decided; then the next one out. *)
Ltac is_record w :=
  lazymatch w with
  | Build_World _ _ _ _ _ _ _ _ => idtac
  | _ => fail
  end.

Ltac on_record t :=
  let b :=
    eval cbv beta iota zeta delta
      [with_self with_mixer call tick set_started set_running
       set_temp_output temp_output
       set_current_speed set_current_pitch set_is_playing
       set_last_update_time set_last_speed set_last_pitch set_paused
       set__last_speed set__last_pitch set_hand_count
       music.set_volume music.load music.play music.pause music.unpause
       music.stop except_Exception time_now
       adjust_audio speed_check frequency_check pitch_check
       reset_controls toggle_play_pause stop_audio
       _process_audio _process_audio_resume
       self mixer started running time_time clock_reads calls
       playing current_speed current_pitch is_playing last_update_time
       update_interval last_speed last_pitch speed_threshold pitch_threshold
       paused _last_speed _last_pitch hand_count loaded status volume
       clock_of stretching_at negb] in t in
  change t with b.

Ltac code_step :=
  match goal with
  | |- context [?f ?w] =>
    is_record w;
    lazymatch f with
    | with_self _ => idtac
    | with_mixer _ => idtac
    | call _ => idtac
    | adjust_audio => idtac
    | speed_check _ => idtac
    | frequency_check _ => idtac
    | pitch_check _ => idtac
    | reset_controls => idtac
    | toggle_play_pause => idtac
    | stop_audio => idtac
    | _process_audio => idtac
    | _process_audio_resume _ => idtac
    end;
    on_record (f w); cbn [app]; repeat decide_test; cbv beta iota
  end.

Ltac run_code := repeat code_step.

(** Projections of an explicit record. *)
Ltac fields :=
  cbv beta iota zeta delta
    [self mixer started running time_time clock_reads calls temp_output
     playing current_speed current_pitch is_playing last_update_time
     update_interval last_speed last_pitch speed_threshold pitch_threshold
     paused _last_speed _last_pitch hand_count loaded status volume
     clock_of stretching_at].

(** ** A frame with two hands *)

(** C3: two hands with wrist distance 0.5 and pinch distance 0.3 each set
    the mixer's volume to 0.5 (by a call of [set_volume] that no test
    guards), give the speed candidate 1.4 and the pitch candidate -2.4, and
    from the default last-accepted values with the time gate open start a
    render thread; exactly one when the clock stays within the update
    interval during the frame. *)
Theorem two_hands_end_to_end (hand1 hand2 : Hand) (w : World) :
  wrist_distance hand1 hand2 = 0.5 ->
  pinch_distance hand1 = 0.3 ->
  pinch_distance hand2 = 0.3 ->
  last_speed (self w) = 1.0 -> last_pitch (self w) = 0.0 ->
  speed_threshold (self w) = 0.05 -> pitch_threshold (self w) = 0.5 ->
  time_now w - last_update_time (self w) >= update_interval (self w) ->
  let w' := process_frame [hand1; hand2] w in
  volume (mixer w') = 0.5 /\
  In (music_set_volume 0.5) (calls w') /\
  speed_of_pinch (pinch_distance hand1) = 1.4 /\
  pitch_of_pinch (pinch_distance hand2) = -2.4 /\
  current_speed (self w') = 1.4 /\
  current_pitch (self w') = -2.4 /\
  (S (started w) <= started w')%nat /\
  In Thread_start (calls w') /\
  ((forall n, (clock_reads w < n)%nat ->
              time_time w n - time_now w < update_interval (self w)) ->
   started w' = S (started w)).
Proof.
  intros Hwrist Hp1 Hp2 Hls Hlp Hst Hpt Hgate.
  assert (Hspeed : speed_of_pinch 0.3 = 1.4)
    by (rewrite speed_of_pinch_inside; lra).
  assert (Hpitch : pitch_of_pinch 0.3 = -2.4)
    by (rewrite pitch_of_pinch_inside; lra).
  assert (Hvol : clip 0.5 0.0 1.0 = 0.5) by (apply clip_inside; lra).
  remember (process_frame [hand1; hand2] w) as w' eqn:Hw'.
  revert Hw'. unfold process_frame. cbn [fold_left length].
  unfold handle_gestures, two_hands, one_hand. cbv zeta.
  fold (wrist_distance hand1 hand2).
  fold (pinch_distance hand1). fold (pinch_distance hand2).
  rewrite Hwrist, Hp1, Hp2, Hspeed, Hpitch, Hvol.
  clear Hwrist Hp1 Hp2.
  destruct w as [c m st rn clk rd cs tmp].
  destruct c as [pl csp cpi ip lut ui lsp lpi sth pth pa uls ulp hc].
  unfold time_now in *. cbn in Hls, Hlp, Hst, Hpt, Hgate. subst.
  run_code.
  all: intros ->; fields.
  all: repeat match goal with |- _ /\ _ => split end;
    try reflexivity; try lia;
    try (rewrite !kept_volume_half; reflexivity);
    try (rewrite !in_app_iff; simpl; tauto).
  all: intros Hclose;
    pose proof (Hclose (S rd) ltac:(lia));
    pose proof (Hclose (S (S rd)) ltac:(lia));
    exfalso; lra.
Qed.

(** Unfolding a frame down to the checks, with the distances of concrete
    hands computed. *)
Ltac frame_checks :=
  unfold run, step, process_frame; cbn [fold_left length];
  unfold handle_gestures, two_hands, one_hand; cbv zeta;
  repeat match goal with
         | |- context [utils.calculate_distance (landmark ?h THUMB_TIP)
                         (landmark ?h INDEX_FINGER_TIP)] =>
           fold (pinch_distance h)
         | |- context [utils.calculate_distance (landmark ?h1 WRIST)
                         (landmark ?h2 WRIST)] =>
           fold (wrist_distance h1 h2)
         end;
  rewrite ?pinch_distance_hand_at by lra;
  rewrite ?wrist_distance_hand_at by lra;
  rewrite ?speed_of_pinch_inside by lra;
  rewrite ?pitch_of_pinch_inside by lra;
  rewrite ?clip_inside by lra.

Lemma two_hands_end_to_end_witness :
  let hand1 := hand_at 0.25 0.3 in
  let hand2 := hand_at 0.75 0.3 in
  let w := __init__ (clock_of 1000 1000.05) in
  (wrist_distance hand1 hand2 = 0.5 /\
   pinch_distance hand1 = 0.3 /\ pinch_distance hand2 = 0.3 /\
   time_now w - last_update_time (self w) >= update_interval (self w)) /\
  volume (mixer (process_frame [hand1; hand2] w)) = 0.5 /\
  current_speed (self (process_frame [hand1; hand2] w)) = 1.4 /\
  current_pitch (self (process_frame [hand1; hand2] w)) = -2.4 /\
  started (process_frame [hand1; hand2] w) = 1%nat.
Proof.
  intros hand1 hand2 w.
  assert (Hwrist : wrist_distance hand1 hand2 = 0.5)
    by (unfold hand1, hand2; rewrite wrist_distance_hand_at; lra).
  assert (Hp1 : pinch_distance hand1 = 0.3)
    by (apply pinch_distance_hand_at; lra).
  assert (Hp2 : pinch_distance hand2 = 0.3)
    by (apply pinch_distance_hand_at; lra).
  assert (Hgate : time_now w - last_update_time (self w)
                  >= update_interval (self w))
    by (unfold time_now; simpl; lra).
  split; [tauto |].
  destruct (two_hands_end_to_end hand1 hand2 w Hwrist Hp1 Hp2
              eq_refl eq_refl eq_refl eq_refl Hgate)
    as (Hv & _ & _ & _ & Hs & Hp & _ & _ & Honce).
  repeat split; try assumption.
  apply Honce. intros [| n] Hn; [inversion Hn |].
  unfold time_now. simpl. lra.
Defined.

(** ** The pitch candidate of the second hand *)

(** C1, evaluated: in one frame with two hands from the initial state, the
    two-hand path accepts the candidate -2.4 of the second hand (the
    current pitch changes and [adjust_audio] is called) and leaves
    [last_pitch] at 0.0, so the per-hand path accepts the same candidate
    once more; and after a reset it accepts that candidate although it
    equals [last_pitch]. *)
Theorem two_hand_pitch_check_bypasses_last_pitch :
  let hand0 := hand_at 0.25 0.35 in
  let hand1 := hand_at 0.75 0.3 in
  let w0 := with_self (set_hand_count 2) (__init__ (clock_of 1000 1000.05)) in
  let w1 := two_hands hand0 hand1 w0 in
  let w2 := handle_gestures hand0 [hand0; hand1] w0 in
  let w3 := handle_gestures hand1 [hand0; hand1] w2 in
  let w4 := reset_controls w3 in
  let w5 := two_hands hand0 hand1 w4 in
  pitch_of_pinch (pinch_distance hand1) = -2.4 /\
  (current_pitch (self w0) = 0.0 /\ last_pitch (self w0) = 0.0 /\
   current_pitch (self w1) = -2.4 /\ last_pitch (self w1) = 0.0 /\
   clock_reads w0 = 0%nat /\ clock_reads w1 = 2%nat) /\
  (w3 = process_frame [hand0; hand1] (__init__ (clock_of 1000 1000.05)) /\
   clock_reads w2 = 2%nat /\ last_pitch (self w2) = 0.0 /\
   clock_reads w3 = 3%nat /\ last_pitch (self w3) = -2.4) /\
  (last_pitch (self w4) = -2.4 /\ current_pitch (self w4) = 0.0 /\
   Rabs (pitch_of_pinch (pinch_distance hand1) - last_pitch (self w4))
     <= pitch_threshold (self w4) /\
   current_pitch (self w5) = -2.4 /\ last_pitch (self w5) = -2.4 /\
   clock_reads w5 = S (clock_reads w4)).
Proof.
  intros hand0 hand1 w0 w1 w2 w3 w4 w5.
  assert (Hcand : pitch_of_pinch (pinch_distance hand1) = -2.4)
    by (unfold hand1; rewrite pinch_distance_hand_at, pitch_of_pinch_inside;
        lra).
  split; [exact Hcand |]. rewrite Hcand. clear Hcand.
  split; [| split].
  - subst w1 w0 hand0 hand1. frame_checks. unfold __init__.
    run_code. fields. repeat split; try reflexivity; lra.
  - subst w3 w2 w1 w0 hand0 hand1.
    split; [unfold process_frame; cbn [fold_left length]; reflexivity |].
    frame_checks. unfold __init__.
    run_code. fields. repeat split; try reflexivity; lra.
  - subst w5 w4 w3 w2 w1 w0 hand0 hand1.
    frame_checks. unfold __init__.
    run_code. fields.
    repeat split; try reflexivity; try lra. by_Rabs.
Qed.

(** ** The time gate *)

(** [adjust_audio] starts a thread exactly when the interval has elapsed. *)
Lemma adjust_audio_gate (w : World) :
  (time_now w - last_update_time (self w) >= update_interval (self w) ->
   started (adjust_audio w) = S (started w) /\
   calls (adjust_audio w) = calls w ++ [Thread_start] /\
   last_update_time (self (adjust_audio w)) = time_now w) /\
  (time_now w - last_update_time (self w) < update_interval (self w) ->
   started (adjust_audio w) = started w /\
   calls (adjust_audio w) = calls w /\
   self (adjust_audio w) = self w).
Proof.
  unfold adjust_audio. cbv zeta.
  change (self (tick w)) with (self w).
  destruct (Rlt_dec _ _) as [Hlt | Hge]; split; intros H;
    try (exfalso; lra); repeat split.
Qed.

Ltac count_starts :=
  unfold thread_starts; rewrite ?filter_app, ?length_app; simpl; lia.

(** C2, as the code has it: of two candidates 50ms apart that pass their
    value tests, the first starts the one render thread and the second only
    sets the parameter; the thread renders with the speed that is current
    when it calls [time_stretch] and the pitch that is current when that
    call returns, the later candidate's value only if it arrived before.
    In general an accepted candidate sets the parameter, and starts a
    render exactly when the update interval has elapsed since the last
    start. *)
Theorem one_render_for_two_candidates
    (s : Schedule) (c1 c2 c : Candidate) (w w0 : World) :
  fifty_ms_apart c1 c2 w ->
  passes c w0 ->
  let w1 := check c1 w in
  let w2 := check c2 w1 in
  let w' := two_candidates s c1 c2 w in
  (started w1 = 1%nat /\ started w2 = 1%nat /\
   is_current c1 w1 /\ is_current c2 w2 /\
   thread_starts (calls w') = S (thread_starts (calls w)) /\
   loaded (mixer w') =
     Rendered
       (current_speed
          (self match s with renders_after => w2 | _ => w1 end))
       (py_round
          (current_pitch
             (self match s with renders_before => w1 | _ => w2 end)))) /\
  (is_current c (check c w0) /\
   (time_now w0 - last_update_time (self w0) >= update_interval (self w0) ->
    thread_starts (calls (check c w0)) = S (thread_starts (calls w0)) /\
    started (check c w0) = S (started w0)) /\
   (time_now w0 - last_update_time (self w0) < update_interval (self w0) ->
    thread_starts (calls (check c w0)) = thread_starts (calls w0) /\
    started (check c w0) = started w0)).
Proof.
  intros (Hui & Hgate & Hnext & Hc1 & Hc2 & Hpa & Hst & Hrn) Hc.
  split.
  - clear Hc. cbv zeta. unfold two_candidates. cbv zeta.
    destruct w as [x m st rn clk rd cs tmp].
    destruct x as [pl csp cpi ip lut ui lsp lpi sth pth pa uls ulp hc].
    unfold time_now in *. cbn in Hui, Hgate, Hnext, Hpa, Hst, Hrn. subst.
    destruct c1 as [v1 | v1 | v1], c2 as [v2 | v2 | v2];
      unfold check, passes in *; cbn in Hc1;
      revert Hc2; run_code; intros Hc2; cbn in Hc2;
      destruct s; run_code; fields;
      repeat split; try reflexivity; try count_starts.
  - destruct w0 as [x m st rn clk rd cs tmp].
    destruct x as [pl csp cpi ip lut ui lsp lpi sth pth pa uls ulp hc].
    unfold time_now. destruct c as [v | v | v];
      unfold check, passes in *; cbn in Hc; run_code; fields;
      (split; [reflexivity |]);
      split; intros Hg; try (exfalso; lra);
      (split; [count_starts | reflexivity]).
Qed.

(** The scenario from the initial state: speed candidates 1.4 and 1.8. *)
Lemma fifty_ms_apart_initial :
  fifty_ms_apart (new_speed 1.4) (new_speed 1.8)
                 (__init__ (clock_of 1000 1000.05)).
Proof.
  unfold fifty_ms_apart, passes, check, time_now, __init__.
  run_code. fields.
  repeat split; try reflexivity; try lra; by_Rabs.
Qed.

Lemma stretches_across_initial :
  loaded (mixer (two_candidates stretches_across (new_speed 1.4)
                   (new_speed 1.8) (__init__ (clock_of 1000 1000.05)))) =
  Rendered 1.4 (py_round 0.0).
Proof.
  unfold two_candidates, check, __init__. cbv zeta.
  run_code. fields. reflexivity.
Qed.

Lemma one_render_for_two_candidates_witness :
  let w := __init__ (clock_of 1000 1000.05) in
  let c1 := new_speed 1.4 in
  let c2 := new_speed 1.8 in
  fifty_ms_apart c1 c2 w /\ passes (new_pitch (-2.4)) w /\
  started (check c1 w) = 1%nat /\ started (check c2 (check c1 w)) = 1%nat /\
  current_speed (self (check c2 (check c1 w))) = 1.8 /\
  loaded (mixer (two_candidates stretches_across c1 c2 w)) =
    Rendered (current_speed (self (check c1 w)))
             (py_round (current_pitch (self (check c2 (check c1 w))))).
Proof.
  intros w c1 c2.
  assert (Hpass : passes (new_pitch (-2.4)) w)
    by (unfold passes, w, __init__; fields; by_Rabs).
  destruct (one_render_for_two_candidates stretches_across c1 c2
              (new_pitch (-2.4)) w w fifty_ms_apart_initial Hpass)
    as ((H1 & H2 & _ & Hcur & _ & Hload) & _).
  split; [exact fifty_ms_apart_initial |].
  split; [exact Hpass |].
  repeat split; assumption.
Defined.

(** C2 as stated fails: when the render thread calls [time_stretch]
    before the second speed candidate arrives, the one render is made at
    the first candidate's speed. *)
Lemma later_value_is_not_always_rendered : ~ later_value_is_rendered.
Proof.
  intros Hspec.
  destruct (Hspec stretches_across (new_speed 1.4) (new_speed 1.8)
              (__init__ (clock_of 1000 1000.05)) fifty_ms_apart_initial)
    as [_ [n Hn]].
  rewrite stretches_across_initial in Hn.
  injection Hn as Hspeed _. lra.
Qed.

(** ** A render pass that raises *)

(** C9, as the code has it: when [pyrb.time_stretch], [pyrb.pitch_shift],
    [sf.write] or [music.load] raises in a render pass, the handler prints
    the error and the pass ends: the mixer (what it has loaded, whether it
    plays, its volume) and every attribute of the controller are as before,
    each call was made once, and no new thread is started.  The audio that
    is streamed is as before when the raise comes from [time_stretch] or
    [pitch_shift], or when the mixer plays the file given at start; a raise
    of [music.load] comes after the temporary file was written anew. *)
Theorem render_failure_is_contained
    (o : Outcome) (w : World) (job : Job) (rest : list Job) :
  running w = job :: rest ->
  o = time_stretch_raises \/ o = pitch_shift_raises \/
  o = sf_write_raises \/ o = music_load_raises ->
  let w' := _process_audio_resume o w in
  let n_steps := py_round (current_pitch (self w)) in
  (mixer w' = mixer w /\ self w' = self w /\
   started w' = started w /\ running w' = rest /\
   calls w' =
     calls w ++
     match o with
     | time_stretch_raises => []
     | pitch_shift_raises => [pyrb_pitch_shift n_steps]
     | sf_write_raises => [pyrb_pitch_shift n_steps; sf_write]
     | _ => [pyrb_pitch_shift n_steps; sf_write;
             music_load (Rendered (stretching_at job) n_steps)]
     end ++
     [print_error_in_audio_processing
        (current_speed (self w)) (current_pitch (self w))]) /\
  (o = time_stretch_raises \/ o = pitch_shift_raises ->
   temp_output w' = temp_output w /\ streamed w' = streamed w) /\
  (loaded (mixer w) = Original -> streamed w' = streamed w) /\
  (o = music_load_raises ->
   temp_output w' = render_of (stretching_at job) n_steps).
Proof.
  intros Hrun Ho. cbv zeta.
  destruct w as [x m st rn clk rd cs tmp]. cbn in Hrun. subst rn.
  unfold streamed.
  destruct Ho as [-> | [-> | [-> | ->]]];
    run_code; fields;
    (split; [repeat split; try reflexivity;
             rewrite <- ?app_assoc; reflexivity |]);
    (split; [intros [Ho | Ho]; try discriminate Ho; split; reflexivity |]);
    (split; [intros Horiginal; cbn in Horiginal; rewrite Horiginal;
             reflexivity |]);
    intros Ho; try discriminate Ho; reflexivity.
Qed.

Lemma render_failure_is_contained_witness :
  let w := _process_audio (adjust_audio (__init__ (clock_of 1000 1000.05))) in
  running w = [{| stretching_at := 1.0 |}] /\
  mixer (_process_audio_resume sf_write_raises w) = mixer w /\
  self (_process_audio_resume sf_write_raises w) = self w /\
  started (_process_audio_resume sf_write_raises w) = started w /\
  streamed (_process_audio_resume sf_write_raises w) = streamed w.
Proof.
  intros w.
  assert (Hrun : running w = [{| stretching_at := 1.0 |}])
    by (unfold w, __init__; run_code; reflexivity).
  assert (Horiginal : loaded (mixer w) = Original)
    by (unfold w, __init__; run_code; reflexivity).
  destruct (render_failure_is_contained sf_write_raises w _ _ Hrun
              (or_intror (or_intror (or_introl eq_refl))))
    as ((Hm & Hs & Hst & _) & _ & Hsame & _).
  repeat split; try assumption. exact (Hsame Horiginal).
Defined.

(** After a first render at speed 1.4, a second one at 1.8 is under way. *)
Lemma second_render_under_way :
  let w := _process_audio
             (check (new_speed 1.8)
                (_process_audio_resume no_exception
                   (_process_audio
                      (check (new_speed 1.4)
                         (__init__ (clock_of 1000 2000)))))) in
  running w = [{| stretching_at := 1.8 |}] /\
  streamed w = the_temp_output (render_of 1.4 (py_round 0.0)) /\
  streamed (_process_audio_resume music_load_raises w) =
    the_temp_output (render_of 1.8 (py_round 0.0)).
Proof.
  unfold streamed, check, __init__. cbv zeta.
  run_code. fields. repeat split.
Qed.

(** C9 as stated fails: the mixer streams from the one temporary file
    that every render writes, so when [music.load] raises in a second
    render the file already holds the new render, and what is streamed is
    no longer the audio loaded before. *)
Lemma failure_does_not_keep_the_loaded_audio :
  ~ failure_keeps_the_loaded_audio.
Proof.
  intros Hspec.
  destruct second_render_under_way as (Hrun & Hbefore & Hafter).
  destruct (Hspec music_load_raises _ _ _ Hrun
              (or_intror (or_intror (or_intror eq_refl)))) as (Hsame & _).
  rewrite Hbefore, Hafter in Hsame.
  injection Hsame as Hspeed. lra.
Qed.

(** ** Two hands: the two-hand mapping runs once per hand *)

Ltac count_volume :=
  unfold set_volume_calls; rewrite ?filter_app, ?length_app; simpl; lia.

Lemma set_volume_calls_check (c : Candidate) (w : World) :
  set_volume_calls (calls (check c w)) = set_volume_calls (calls w).
Proof.
  destruct w as [x m st rn clk rd cs tmp].
  destruct x as [pl csp cpi ip lut ui lsp lpi sth pth pa uls ulp hc].
  destruct c as [v | v | v]; unfold check; run_code; fields; count_volume.
Qed.

Lemma set_volume_calls_one_hand (hand : Hand) (w : World) :
  set_volume_calls (calls (one_hand hand w)) = set_volume_calls (calls w).
Proof.
  unfold one_hand. cbv zeta.
  apply (set_volume_calls_check (new_pitch _)).
Qed.

Lemma set_volume_calls_two_hands (hand1 hand2 : Hand) (w : World) :
  set_volume_calls (calls (two_hands hand1 hand2 w)) =
  S (set_volume_calls (calls w)).
Proof.
  unfold two_hands. cbv zeta.
  etransitivity; [exact (set_volume_calls_check (frequency_shift _) _) |].
  etransitivity; [exact (set_volume_calls_check (new_speed _) _) |].
  unfold with_mixer, call. cbn [calls]. count_volume.
Qed.

(** C10: with exactly two hands, [handle_gestures] is called once per hand
    with the whole list, and each call runs the two-hand mapping (volume,
    speed check of the first hand, pitch check of the second) before the
    per-hand pitch check: the mapping runs twice in the frame, the volume
    is set twice, and the second run can accept a candidate again. *)
Theorem two_hand_mapping_runs_once_per_hand (hand1 hand2 : Hand) (w : World) :
  (forall hand w0,
      handle_gestures hand [hand1; hand2] w0 =
      one_hand hand (two_hands hand1 hand2 w0)) /\
  process_frame [hand1; hand2] w =
    handle_gestures hand2 [hand1; hand2]
      (handle_gestures hand1 [hand1; hand2]
         (with_self (set_hand_count 2) w)) /\
  process_frame [hand1; hand2] w =
    one_hand hand2
      (two_hands hand1 hand2
         (one_hand hand1
            (two_hands hand1 hand2 (with_self (set_hand_count 2) w)))) /\
  (forall w0,
      two_hands hand1 hand2 w0 =
      let volume := clip (wrist_distance hand1 hand2) 0.0 1.0 in
      frequency_check (pitch_of_pinch (pinch_distance hand2))
        (speed_check (speed_of_pinch (pinch_distance hand1))
           (with_mixer (music.set_volume volume)
              (call (music_set_volume volume) w0)))) /\
  set_volume_calls (calls (process_frame [hand1; hand2] w)) =
    S (S (set_volume_calls (calls w))) /\
  (let h1 := hand_at 0.25 0.475 in
   let h2 := hand_at 0.75 0.3 in
   let w1 := handle_gestures h1 [h1; h2]
               (with_self (set_hand_count 2)
                  (__init__ (clock_of 1000 1000.05))) in
   let w2 := two_hands h1 h2 w1 in
   current_pitch (self w1) = 6 /\ current_pitch (self w2) = -2.4 /\
   clock_reads w2 = S (clock_reads w1)).
Proof.
  assert (Hframe :
    process_frame [hand1; hand2] w =
    one_hand hand2
      (two_hands hand1 hand2
         (one_hand hand1
            (two_hands hand1 hand2 (with_self (set_hand_count 2) w)))))
    by (unfold process_frame, handle_gestures; cbn [fold_left length];
        reflexivity).
  split; [intros hand w0; unfold handle_gestures; reflexivity |].
  split; [unfold process_frame; cbn [fold_left length]; reflexivity |].
  split; [exact Hframe |].
  split; [intros w0; unfold two_hands, wrist_distance, pinch_distance;
          reflexivity |].
  split.
  - rewrite Hframe.
    rewrite set_volume_calls_one_hand, set_volume_calls_two_hands.
    rewrite set_volume_calls_one_hand, set_volume_calls_two_hands.
    reflexivity.
  - intros h1 h2 w1 w2. subst w2 w1 h1 h2.
    frame_checks. unfold __init__. run_code. fields.
    repeat split; try reflexivity; lra.
Qed.

(** * Further properties of the controller *)

(** ** round *)

Lemma py_round_cases (v : R) :
  let n := Int_part v in
  v = IZR n + frac_part v /\ 0 <= frac_part v < 1 /\
  ((frac_part v < 1 / 2 /\ py_round v = n) \/
   (frac_part v > 1 / 2 /\ py_round v = (n + 1)%Z) \/
   (frac_part v = 1 / 2 /\ (py_round v = n \/ py_round v = (n + 1)%Z))).
Proof.
  cbv zeta. destruct (base_fp v) as [Hge Hlt].
  split; [unfold frac_part; lra |]. split; [lra |].
  unfold py_round. cbv zeta.
  destruct (Rlt_dec (frac_part v) (1 / 2)) as [H1 | H1]; [left; tauto |].
  destruct (Rgt_dec (frac_part v) (1 / 2)) as [H2 | H2];
    [right; left; tauto |].
  right; right. split; [lra |].
  destruct (Z.even (Int_part v)); tauto.
Qed.

Lemma py_round_nearest (v : R) : Rabs (IZR (py_round v) - v) <= 1 / 2.
Proof.
  destruct (py_round_cases v) as (Hv & Hf & Hcases). cbv zeta in *.
  destruct Hcases as [[Hlt ->] | [[Hgt ->] | [Heq [-> | ->]]]];
    rewrite ?plus_IZR; by_Rabs.
Qed.

Lemma py_round_range (v : R) :
  -12 <= v <= 12 -> (-12 <= py_round v <= 12)%Z.
Proof.
  intros Hv. pose proof (py_round_nearest v) as Hn.
  assert (Hb : IZR (-13) < IZR (py_round v) < IZR 13)
    by (revert Hn; unfold Rabs; destruct (Rcase_abs _); lra).
  destruct Hb as [Hlo Hhi]. apply lt_IZR in Hlo, Hhi. lia.
Qed.

(** ** What a session keeps *)

(** The speed mapped from a distance: a distance is not negative. *)
Lemma speed_of_distance_range (landmark1 landmark2 : utils.Landmark) :
  0.8 <= speed_of_pinch (utils.calculate_distance landmark1 landmark2) <= 2.0.
Proof.
  pose proof (sqrt_pos ((utils.x landmark1 - utils.x landmark2) ^ 2 +
                        (utils.y landmark1 - utils.y landmark2) ^ 2)) as Hd.
  fold (utils.calculate_distance landmark1 landmark2) in Hd.
  revert Hd. generalize (utils.calculate_distance landmark1 landmark2).
  intros d Hd. unfold speed_of_pinch, clip, Rmin, Rmax.
  destruct (Rle_dec _ _); destruct (Rle_dec _ _); lra.
Qed.

Ltac open_session Hok :=
  unfold session_ok, looping_plays in Hok; cbn in Hok;
  destruct Hok as ((Hspeed & Hpitch) & Hvol & Hplay & (Hst & Hpt & Hui)
                   & Hjobs & Hcalls & Htrack & Hloops & Hstart);
  subst.

Ltac close_session :=
  unfold session_ok, looping_plays; fields;
  rewrite ?Forall_app, ?filter_app, ?length_app, ?in_app_iff;
  repeat match goal with |- _ /\ _ => split end;
  try assumption; try reflexivity; try lra;
  try (simpl; lia);
  try (repeat first [apply Forall_nil | apply Forall_cons];
       simpl; first [exact I | lra | lia | assumption]);
  try (apply kept_volume_range; assumption);
  try (simpl; intuition discriminate).

Lemma session_ok___init__ (clock : nat -> R) : session_ok (__init__ clock).
Proof. unfold __init__. close_session. Qed.

Lemma session_ok_check (c : Candidate) (w : World) :
  candidate_in_range c -> session_ok w -> session_ok (check c w).
Proof.
  intros Hc Hok.
  destruct w as [x m st rn clk rd cs tmp].
  destruct x as [pl csp cpi ip lut ui lsp lpi sth pth pa uls ulp hc].
  open_session Hok.
  destruct c as [v | v | v]; unfold check; cbn in Hc;
    run_code; close_session.
Qed.

Lemma session_ok_two_hands (hand1 hand2 : Hand) (w : World) :
  session_ok w -> session_ok (two_hands hand1 hand2 w).
Proof.
  intros Hok. unfold two_hands. cbv zeta.
  apply (session_ok_check (frequency_shift _)); [apply pitch_of_pinch_range |].
  apply (session_ok_check (new_speed _)); [apply speed_of_distance_range |].
  pose proof (clip_bounds 0.0 1.0 ltac:(lra)
                (utils.calculate_distance (landmark hand1 WRIST)
                                          (landmark hand2 WRIST))) as Hclip.
  revert Hclip. generalize (clip (utils.calculate_distance
                                    (landmark hand1 WRIST)
                                    (landmark hand2 WRIST)) 0.0 1.0).
  intros v Hv.
  destruct w as [x m st rn clk rd cs tmp]. open_session Hok.
  run_code. close_session.
Qed.

Lemma session_ok_handle_gestures (hand : Hand) (all : list Hand) (w : World) :
  session_ok w -> session_ok (handle_gestures hand all w).
Proof.
  intros Hok. unfold handle_gestures, one_hand. cbv zeta.
  apply (session_ok_check (new_pitch _)); [apply pitch_of_pinch_range |].
  destruct all as [| h1 [| h2 [| h3 rest]]]; try exact Hok.
  apply session_ok_two_hands, Hok.
Qed.

Lemma session_ok_hands (all todo : list Hand) (w : World) :
  session_ok w ->
  session_ok (fold_left (fun w0 hand => handle_gestures hand all w0) todo w).
Proof.
  revert w. induction todo as [| hand todo IH]; intros w Hw; simpl.
  - exact Hw.
  - apply IH, session_ok_handle_gestures, Hw.
Qed.

Lemma session_ok_process_frame (hands : list Hand) (w : World) :
  session_ok w -> session_ok (process_frame hands w).
Proof.
  intros Hok. unfold process_frame. destruct hands as [| h rest]; [exact Hok |].
  apply session_ok_hands.
  generalize (length (h :: rest)). intros n.
  destruct w as [x m st rn clk rd cs tmp]. open_session Hok.
  run_code. close_session.
Qed.

Lemma session_ok_toggle_play_pause (w : World) :
  session_ok w -> session_ok (toggle_play_pause w).
Proof.
  intros Hok. destruct w as [x m st rn clk rd cs tmp].
  destruct x as [pl csp cpi ip lut ui lsp lpi sth pth pa uls ulp hc].
  open_session Hok. destruct pa; run_code; close_session.
Qed.

Lemma session_ok_reset_controls (w : World) :
  session_ok w -> session_ok (reset_controls w).
Proof.
  intros Hok. destruct w as [x m st rn clk rd cs tmp].
  destruct x as [pl csp cpi ip lut ui lsp lpi sth pth pa uls ulp hc].
  open_session Hok. run_code; close_session.
Qed.

Lemma session_ok__process_audio (w : World) :
  session_ok w -> session_ok (_process_audio w).
Proof.
  intros Hok. destruct w as [x m st rn clk rd cs tmp].
  destruct x as [pl csp cpi ip lut ui lsp lpi sth pth pa uls ulp hc].
  open_session Hok. destruct st as [| st], pa; run_code; close_session.
Qed.

Lemma session_ok__process_audio_resume (o : Outcome) (w : World) :
  session_ok w -> session_ok (_process_audio_resume o w).
Proof.
  intros Hok. destruct w as [x m st rn clk rd cs tmp].
  destruct x as [pl csp cpi ip lut ui lsp lpi sth pth pa uls ulp hc].
  open_session Hok.
  pose proof (py_round_range cpi Hpitch) as Hround.
  destruct rn as [| [speed] rest]; [run_code; close_session |].
  apply Forall_cons_iff in Hjobs. destruct Hjobs as [Hjob Hjobs].
  cbn in Hjob.
  destruct o; run_code; close_session.
Qed.

Lemma session_ok_step (w : World) (e : Event) :
  session_ok w -> session_ok (step w e).
Proof.
  intros Hok. destruct e; simpl.
  - apply session_ok_process_frame, Hok.
  - apply session_ok_toggle_play_pause, Hok.
  - apply session_ok_reset_controls, Hok.
  - apply session_ok__process_audio, Hok.
  - apply session_ok__process_audio_resume, Hok.
Qed.

Lemma session_ok_run (clock : nat -> R) (es : list Event) :
  session_ok (run (__init__ clock) es).
Proof.
  unfold run. generalize (session_ok___init__ clock).
  generalize (__init__ clock).
  induction es as [| e es IH]; intros w Hw; simpl; [exact Hw |].
  apply IH, session_ok_step, Hw.
Qed.

(** X1: in a session, from [__init__] on and through any frames, keys and
    render threads, [is_playing] stays true: `Starting playback` is never
    printed, and the only [play(-1)] is the one of [__init__]; the branch
    of [reset_controls] that restarts the music is never taken. *)
Theorem session_never_stops_playing (clock : nat -> R) (es : list Event) :
  is_playing (self (run (__init__ clock) es)) = true /\
  ~ In print_starting (calls (run (__init__ clock) es)) /\
  looping_plays (calls (run (__init__ clock) es)) = 1%nat.
Proof.
  destruct (session_ok_run clock es)
    as (_ & _ & Hplay & _ & _ & _ & _ & Hloops & Hstart).
  repeat split; assumption.
Qed.

(** X2: in a session, every [pyrb.time_stretch] is called with a speed in
    [0.8, 2.0] and every [pyrb.pitch_shift] with a whole number of steps in
    [-12, 12], and so is what the mixer has loaded. *)
Theorem session_engine_calls_in_range (clock : nat -> R) (es : list Event) :
  Forall engine_call_in_range (calls (run (__init__ clock) es)) /\
  track_in_range (loaded (mixer (run (__init__ clock) es))).
Proof.
  destruct (session_ok_run clock es)
    as (_ & _ & _ & _ & _ & Hcalls & Htrack & _).
  split; assumption.
Qed.

(** X19: the speed a gesture gives is never below 0.8, for every hand,
    so the lower bound 0.5 of the clip is out of reach: in a session the
    current speed stays in [0.8, 2.0]. *)
Theorem session_speed_not_below_0_8
    (hand : Hand) (clock : nat -> R) (es : list Event) :
  0.8 <= speed_of_pinch (pinch_distance hand) <= 2.0 /\
  0.8 <= current_speed (self (run (__init__ clock) es)) <= 2.0.
Proof.
  split; [apply speed_of_distance_range |].
  destruct (session_ok_run clock es) as ((Hspeed & _) & _). exact Hspeed.
Qed.

(** X3: in a session the volume of the mixer stays in [0, 1]. *)
Theorem session_volume_in_range (clock : nat -> R) (es : list Event) :
  0 <= volume (mixer (run (__init__ clock) es)) <= 1.
Proof.
  destruct (session_ok_run clock es) as (_ & Hvol & _). exact Hvol.
Qed.

(** ** Frames *)

Lemma one_hand_keeps_speed_and_mixer (hand : Hand) (w : World) :
  current_speed (self (one_hand hand w)) = current_speed (self w) /\
  last_speed (self (one_hand hand w)) = last_speed (self w) /\
  mixer (one_hand hand w) = mixer w.
Proof.
  unfold one_hand. cbv zeta.
  generalize (pitch_of_pinch
                (utils.calculate_distance (landmark hand THUMB_TIP)
                                          (landmark hand INDEX_FINGER_TIP))).
  intros c. destruct w as [x m st rn clk rd cs tmp].
  destruct x as [pl csp cpi ip lut ui lsp lpi sth pth pa uls ulp hc].
  run_code; fields; repeat split.
Qed.

Lemma hands_keep_speed_and_mixer (all todo : list Hand) (w : World) :
  length all <> 2%nat ->
  let w' := fold_left (fun w0 hand => handle_gestures hand all w0) todo w in
  current_speed (self w') = current_speed (self w) /\
  last_speed (self w') = last_speed (self w) /\
  mixer w' = mixer w.
Proof.
  intros Hlen. cbv zeta. revert w.
  induction todo as [| hand todo IH]; intros w; simpl; [tauto |].
  destruct (IH (handle_gestures hand all w)) as (-> & -> & ->).
  assert (Hone : handle_gestures hand all w = one_hand hand w).
  { unfold handle_gestures.
    destruct all as [| h1 [| h2 [| h3 rest]]]; try reflexivity.
    exfalso. apply Hlen. reflexivity. }
  rewrite Hone. apply one_hand_keeps_speed_and_mixer.
Qed.

(** X4: a frame with any number of hands other than two changes neither
    the speed, nor the last accepted speed, nor the mixer (its volume, what
    it plays): only the pitch can change. *)
Theorem frame_without_two_hands_keeps_speed_and_volume
    (multi_hand_landmarks : list Hand) (w : World) :
  length multi_hand_landmarks <> 2%nat ->
  let w' := process_frame multi_hand_landmarks w in
  current_speed (self w') = current_speed (self w) /\
  last_speed (self w') = last_speed (self w) /\
  mixer w' = mixer w.
Proof.
  intros Hlen. cbv zeta. unfold process_frame.
  destruct multi_hand_landmarks as [| h rest]; [tauto |].
  destruct (hands_keep_speed_and_mixer (h :: rest) (h :: rest)
              (with_self (set_hand_count (length (h :: rest))) w) Hlen)
    as (-> & -> & ->).
  repeat split.
Qed.

Lemma frame_without_two_hands_keeps_speed_and_volume_witness :
  let w := __init__ (clock_of 1000 1000.05) in
  let w' := process_frame [hand_at 0.25 0.3] w in
  length [hand_at 0.25 0.3] <> 2%nat /\
  current_speed (self w') = current_speed (self w) /\
  last_speed (self w') = last_speed (self w) /\
  mixer w' = mixer w.
Proof.
  intros w w'.
  assert (Hlen : length [hand_at 0.25 0.3] <> 2%nat) by (simpl; lia).
  split; [exact Hlen |].
  exact (frame_without_two_hands_keeps_speed_and_volume
           [hand_at 0.25 0.3] w Hlen).
Defined.

(** X5: a single hand that holds still settles: processing the same
    one-hand frame a second time changes nothing at all (no candidate
    passes, the clock is not read), when the pitch threshold is not
    negative. *)
Theorem steady_single_hand_settles (hand : Hand) (w : World) :
  0 <= pitch_threshold (self w) ->
  process_frame [hand] (process_frame [hand] w) = process_frame [hand] w.
Proof.
  intros Hthr. unfold process_frame. cbn [fold_left length].
  unfold handle_gestures, one_hand. cbv zeta.
  generalize (pitch_of_pinch
                (utils.calculate_distance (landmark hand THUMB_TIP)
                                          (landmark hand INDEX_FINGER_TIP))).
  intros c. destruct w as [x m st rn clk rd cs tmp].
  destruct x as [pl csp cpi ip lut ui lsp lpi sth pth pa uls ulp hc].
  cbn in Hthr.
  run_code; reflexivity.
Qed.

Lemma steady_single_hand_settles_witness :
  let w := __init__ (clock_of 1000 1000.05) in
  0 <= pitch_threshold (self w) /\
  process_frame [hand_at 0.25 0.3] (process_frame [hand_at 0.25 0.3] w) =
  process_frame [hand_at 0.25 0.3] w.
Proof.
  intros w.
  assert (Hthr : 0 <= pitch_threshold (self w)) by (simpl; lra).
  split; [exact Hthr |].
  exact (steady_single_hand_settles (hand_at 0.25 0.3) w Hthr).
Defined.

(** Two hands whose pitch candidates differ by more than the threshold:
    one frame from a state where the second hand's pitch is current. *)
Lemma two_unlike_hands_frame (hand1 hand2 : Hand) (w : World) :
  let p1 := pitch_of_pinch (pinch_distance hand1) in
  let p2 := pitch_of_pinch (pinch_distance hand2) in
  0 <= pitch_threshold (self w) ->
  Rabs (p1 - p2) > pitch_threshold (self w) ->
  Rabs (speed_of_pinch (pinch_distance hand1) - last_speed (self w))
    <= speed_threshold (self w) ->
  current_pitch (self w) = p2 -> last_pitch (self w) = p2 ->
  let w' := process_frame [hand1; hand2] w in
  clock_reads w' = (clock_reads w + 3)%nat /\
  current_pitch (self w') = p2 /\ last_pitch (self w') = p2 /\
  current_speed (self w') = current_speed (self w) /\
  last_speed (self w') = last_speed (self w) /\
  speed_threshold (self w') = speed_threshold (self w) /\
  pitch_threshold (self w') = pitch_threshold (self w).
Proof.
  intros p1 p2 Hthr Hdiff Hspeed Hcur Hlast. cbv zeta.
  assert (Hdiff' : Rabs (p2 - p1) > pitch_threshold (self w))
    by (rewrite Rabs_minus_sym; exact Hdiff).
  unfold process_frame. cbn [fold_left length].
  unfold handle_gestures, two_hands, one_hand. cbv zeta.
  fold (pinch_distance hand1). fold (pinch_distance hand2).
  fold p1. fold p2.
  generalize (clip (utils.calculate_distance (landmark hand1 WRIST)
                                             (landmark hand2 WRIST)) 0.0 1.0).
  intros vol.
  revert Hspeed. generalize (speed_of_pinch (pinch_distance hand1)).
  intros s Hspeed.
  clearbody p1 p2.
  destruct w as [x m st rn clk rd cs tmp].
  destruct x as [pl csp cpi ip lut ui lsp lpi sth pth pa uls ulp hc].
  cbn in Hthr, Hdiff, Hdiff', Hspeed, Hcur, Hlast. subst cpi lpi.
  apply Rle_not_lt in Hspeed.
  run_code; fields; repeat split; lia.
Qed.

(** X6: two hands that hold still do not settle when their pitch
    candidates differ by more than the threshold: in every frame the pitch
    goes to the first hand's candidate and back to the second's, three
    candidates pass and [adjust_audio] is called three times, frame after
    frame. *)
Theorem two_unlike_hands_never_settle
    (hand1 hand2 : Hand) (w : World) (n : nat) :
  let p1 := pitch_of_pinch (pinch_distance hand1) in
  let p2 := pitch_of_pinch (pinch_distance hand2) in
  0 <= pitch_threshold (self w) ->
  Rabs (p1 - p2) > pitch_threshold (self w) ->
  Rabs (speed_of_pinch (pinch_distance hand1) - last_speed (self w))
    <= speed_threshold (self w) ->
  current_pitch (self w) = p2 -> last_pitch (self w) = p2 ->
  let w' := Nat.iter n (process_frame [hand1; hand2]) w in
  clock_reads w' = (clock_reads w + 3 * n)%nat /\
  current_pitch (self w') = p2 /\ last_pitch (self w') = p2 /\
  current_speed (self w') = current_speed (self w).
Proof.
  intros p1 p2 Hthr Hdiff Hspeed Hcur Hlast. cbv zeta.
  assert (Hall :
    let w' := Nat.iter n (process_frame [hand1; hand2]) w in
    clock_reads w' = (clock_reads w + 3 * n)%nat /\
    current_pitch (self w') = p2 /\ last_pitch (self w') = p2 /\
    current_speed (self w') = current_speed (self w) /\
    last_speed (self w') = last_speed (self w) /\
    speed_threshold (self w') = speed_threshold (self w) /\
    pitch_threshold (self w') = pitch_threshold (self w)).
  { induction n as [| n IH]; cbv zeta.
    - simpl. repeat split; try assumption. lia.
    - rewrite Nat.iter_succ. cbv zeta in IH.
      destruct IH as (Hr & Hc & Hl & Hcs & Hls & Hst & Hpt).
      destruct (two_unlike_hands_frame hand1 hand2
                  (Nat.iter n (process_frame [hand1; hand2]) w))
        as (Hr' & Hc' & Hl' & Hcs' & Hls' & Hst' & Hpt');
        try (rewrite ?Hst, ?Hpt, ?Hls; assumption).
      rewrite Hr', Hc', Hl', Hcs', Hls', Hst', Hpt', Hr.
      repeat split; try assumption. lia. }
  cbv zeta in Hall. tauto.
Qed.

Lemma two_unlike_hands_never_settle_witness :
  let hand1 := hand_at 0.25 0.475 in
  let hand2 := hand_at 0.75 0.3 in
  let w := process_frame [hand1; hand2] (__init__ (clock_of 1000 1000.05)) in
  let w' := Nat.iter 10 (process_frame [hand1; hand2]) w in
  (0 <= pitch_threshold (self w) /\
   Rabs (pitch_of_pinch (pinch_distance hand1)
         - pitch_of_pinch (pinch_distance hand2)) > pitch_threshold (self w) /\
   current_pitch (self w) = pitch_of_pinch (pinch_distance hand2)) /\
  clock_reads w' = (clock_reads w + 30)%nat /\
  current_pitch (self w') = pitch_of_pinch (pinch_distance hand2).
Proof.
  intros hand1 hand2 w w'.
  assert (Hp1 : pitch_of_pinch (pinch_distance hand1) = 6)
    by (unfold hand1; rewrite pinch_distance_hand_at, pitch_of_pinch_inside;
        lra).
  assert (Hp2 : pitch_of_pinch (pinch_distance hand2) = -2.4)
    by (unfold hand2; rewrite pinch_distance_hand_at, pitch_of_pinch_inside;
        lra).
  assert (Hs : speed_of_pinch (pinch_distance hand1) = 1.75)
    by (unfold hand1; rewrite pinch_distance_hand_at, speed_of_pinch_inside;
        lra).
  assert (Hw : pitch_threshold (self w) = 0.5 /\
               speed_threshold (self w) = 0.05 /\
               last_speed (self w) = 1.75 /\
               current_pitch (self w) = -2.4 /\ last_pitch (self w) = -2.4).
  { subst w hand1 hand2. frame_checks. unfold __init__. run_code. fields.
    repeat split; lra. }
  destruct Hw as (Hpt & Hst & Hls & Hcur & Hlast).
  assert (H1 : 0 <= pitch_threshold (self w)) by (rewrite Hpt; lra).
  assert (H2 : Rabs (pitch_of_pinch (pinch_distance hand1)
                     - pitch_of_pinch (pinch_distance hand2))
               > pitch_threshold (self w))
    by (rewrite Hp1, Hp2, Hpt; by_Rabs).
  assert (H3 : Rabs (speed_of_pinch (pinch_distance hand1)
                     - last_speed (self w)) <= speed_threshold (self w))
    by (rewrite Hs, Hls, Hst; by_Rabs).
  assert (H4 : current_pitch (self w) = pitch_of_pinch (pinch_distance hand2))
    by (rewrite Hp2; exact Hcur).
  assert (H5 : last_pitch (self w) = pitch_of_pinch (pinch_distance hand2))
    by (rewrite Hp2; exact Hlast).
  destruct (two_unlike_hands_never_settle hand1 hand2 w 10 H1 H2 H3 H4 H5)
    as (Hreads & Hpitch & _).
  split; [tauto |]. split; [exact Hreads | exact Hpitch].
Defined.

(** ** Play, pause and the render thread *)

(** X7: pressing `p` twice while the music plays (or twice while it is
    paused) brings the controller and the mixer back to where they were. *)
Theorem toggle_play_pause_twice (w : World) (loops : Z) :
  is_playing (self w) = true ->
  (paused (self w) = false /\ status (mixer w) = Playing loops) \/
  (paused (self w) = true /\ status (mixer w) = Paused loops) ->
  self (toggle_play_pause (toggle_play_pause w)) = self w /\
  mixer (toggle_play_pause (toggle_play_pause w)) = mixer w.
Proof.
  intros Hplay Hstate.
  destruct w as [x m st rn clk rd cs tmp].
  destruct x as [pl csp cpi ip lut ui lsp lpi sth pth pa uls ulp hc].
  destruct m as [tr stat vol]. cbn in Hplay, Hstate. subst ip.
  destruct Hstate as [[-> ->] | [-> ->]]; run_code; fields; split; reflexivity.
Qed.

Lemma toggle_play_pause_twice_witness :
  let w := __init__ (clock_of 1000 1000.05) in
  is_playing (self w) = true /\
  paused (self w) = false /\ status (mixer w) = Playing (-1) /\
  self (toggle_play_pause (toggle_play_pause w)) = self w /\
  mixer (toggle_play_pause (toggle_play_pause w)) = mixer w.
Proof.
  intros w.
  destruct (toggle_play_pause_twice w (-1) eq_refl
              (or_introl (conj eq_refl eq_refl))) as [Hs Hm].
  repeat split; assumption.
Defined.

(** X8: `r` pressed while paused sets speed and pitch back but renders
    nothing: the thread it may start finds [paused] set and ends, so the
    mixer, the running renders and the pause are as before and no call
    reaches the audio engine. *)
Theorem reset_while_paused_renders_nothing (w : World) :
  paused (self w) = true -> is_playing (self w) = true ->
  started w = 0%nat ->
  let w' := _process_audio (reset_controls w) in
  current_speed (self w') = 1.0 /\ current_pitch (self w') = 0.0 /\
  paused (self w') = true /\
  mixer w' = mixer w /\ running w' = running w /\ started w' = 0%nat /\
  (calls w' = calls w ++ [print_resetting] \/
   calls w' = calls w ++ [print_resetting; Thread_start]).
Proof.
  intros Hpa Hplay Hst. cbv zeta.
  destruct w as [x m st rn clk rd cs tmp].
  destruct x as [pl csp cpi ip lut ui lsp lpi sth pth pa uls ulp hc].
  cbn in Hpa, Hplay, Hst. subst.
  run_code; fields; repeat split;
    rewrite <- ?app_assoc; simpl; auto.
Qed.

Lemma reset_while_paused_renders_nothing_witness :
  let w := toggle_play_pause (__init__ (clock_of 1000 1000.05)) in
  paused (self w) = true /\ is_playing (self w) = true /\
  started w = 0%nat /\
  mixer (_process_audio (reset_controls w)) = mixer w /\
  current_speed (self (_process_audio (reset_controls w))) = 1.0.
Proof.
  intros w.
  destruct (reset_while_paused_renders_nothing w eq_refl eq_refl eq_refl)
    as (Hs & _ & _ & Hm & _).
  repeat split; assumption.
Defined.

(** X9: a pause does not hold against a render that is under way: when the
    thread that was inside [time_stretch] at the time of the `p` finishes,
    it loads and plays its track, and the mixer plays while [paused] is
    still true. *)
Theorem render_under_way_ends_the_pause
    (w : World) (job : Job) (rest : list Job) :
  is_playing (self w) = true -> paused (self w) = false ->
  running w = job :: rest ->
  let w' := _process_audio_resume no_exception (toggle_play_pause w) in
  paused (self w') = true /\
  status (mixer w') = Playing 0 /\
  loaded (mixer w') =
    Rendered (stretching_at job) (py_round (current_pitch (self w))).
Proof.
  intros Hplay Hpa Hrun. cbv zeta.
  destruct w as [x m st rn clk rd cs tmp].
  destruct x as [pl csp cpi ip lut ui lsp lpi sth pth pa uls ulp hc].
  cbn in Hplay, Hpa, Hrun. subst.
  run_code; fields; repeat split.
Qed.

Lemma render_under_way_ends_the_pause_witness :
  let w := _process_audio (adjust_audio (__init__ (clock_of 1000 1000.05))) in
  let w' := _process_audio_resume no_exception (toggle_play_pause w) in
  is_playing (self w) = true /\ paused (self w) = false /\
  running w = [{| stretching_at := 1.0 |}] /\
  paused (self w') = true /\ status (mixer w') = Playing 0.
Proof.
  intros w w'.
  assert (Hw : is_playing (self w) = true /\ paused (self w) = false /\
               running w = [{| stretching_at := 1.0 |}])
    by (unfold w, __init__; run_code; fields; repeat split).
  destruct Hw as (Hplay & Hpa & Hrun).
  destruct (render_under_way_ends_the_pause w _ _ Hplay Hpa Hrun)
    as (Hp & Hs & _).
  repeat split; assumption.
Defined.

(** * camera_selector.py *)

Section Selector.

Import CameraSelector.

Variable self : Self.

Lemma release_one_head (i : nat) (caps : list nat) :
  release_one i (i :: caps) = caps.
Proof. simpl. rewrite Nat.eqb_refl. reflexivity. Qed.

Lemma scan_step (acc : list (nat * bool)) (env : Env) (i : nat) :
  (let (opened, env0) := VideoCapture i env in
   if opened
   then (acc ++ [(i, true)], release i env0)
   else (acc ++ [(i, false)], env0)) =
  (acc ++ [(i, isOpened env (captures env) i)], after_captures 1 env).
Proof.
  unfold VideoCapture, release, after_captures.
  destruct (isOpened env (captures env) i);
    cbn [isOpened captures held stdin stdout];
    rewrite ?release_one_head; reflexivity.
Qed.

Lemma scan_from (n start : nat) (acc : list (nat * bool)) (env : Env) :
  fold_left
    (fun (acc : list (nat * bool) * Env) (i : nat) =>
       let (available_cameras, env) := acc in
       let (opened, env) := VideoCapture i env in
       if opened
       then (available_cameras ++ [(i, true)], release i env)
       else (available_cameras ++ [(i, false)], env))
    (seq start n) (acc, env) =
  (acc ++ map (fun i => (i, isOpened env (captures env + (i - start)) i))
              (seq start n),
   after_captures n env).
Proof.
  revert start acc env. induction n as [| n IH]; intros start acc env.
  - simpl. rewrite app_nil_r. destruct env; reflexivity.
  - cbn [seq fold_left]. rewrite scan_step, IH.
    unfold after_captures. cbn [isOpened captures held stdin stdout].
    f_equal; [| f_equal; lia].
    rewrite <- app_assoc. f_equal. cbn [map app].
    rewrite Nat.sub_diag, Nat.add_0_r. f_equal.
    apply map_ext_in. intros i Hi. apply in_seq in Hi.
    do 2 f_equal. lia.
Qed.

Lemma get_available_cameras_eq (env : Env) :
  get_available_cameras self env =
  (scanned self env (captures env),
   after_captures (max_cameras_to_check self) env).
Proof.
  unfold get_available_cameras, scanned. rewrite scan_from.
  cbn [app]. f_equal. apply map_ext. intros i.
  rewrite Nat.sub_0_r. reflexivity.
Qed.

Lemma length_scanned (env : Env) (from : nat) :
  length (scanned self env from) = max_cameras_to_check self.
Proof. unfold scanned. rewrite length_map, length_seq. reflexivity. Qed.

Lemma nth_error_scanned (env : Env) (from i : nat) :
  (i < max_cameras_to_check self)%nat ->
  nth_error (scanned self env from) i = Some (i, isOpened env (from + i) i).
Proof.
  intros Hi. unfold scanned. rewrite nth_error_map, nth_error_seq.
  destruct (Nat.ltb_spec i (max_cameras_to_check self)); [reflexivity | lia].
Qed.

(** X10: [get_available_cameras] makes one capture per index from 0 up to
    [max_cameras_to_check], in order, and lists each index once with what
    that capture gave; the list has [max_cameras_to_check] entries, entry
    [i] is about index [i], and every capture that opened is released. *)
Theorem get_available_cameras_lists_every_index (env : Env) :
  let available := fst (get_available_cameras self env) in
  let env' := snd (get_available_cameras self env) in
  available =
    map (fun i => (i, isOpened env (captures env + i) i))
        (seq 0 (max_cameras_to_check self)) /\
  length available = max_cameras_to_check self /\
  (forall i, (i < max_cameras_to_check self)%nat ->
             nth_error available i =
             Some (i, isOpened env (captures env + i) i)) /\
  captures env' = (max_cameras_to_check self + captures env)%nat /\
  held env' = held env /\ stdin env' = stdin env /\ stdout env' = stdout env.
Proof.
  cbv zeta. rewrite get_available_cameras_eq. cbn [fst snd].
  split; [reflexivity |].
  split; [apply length_scanned |].
  split; [intros i Hi; apply nth_error_scanned, Hi |].
  repeat split.
Qed.

(** *** The prompt *)

Lemma acceptable_scanned (env : Env) (from : nat) (z : Z) :
  acceptable self (scanned self env from) (number z) = true <->
  (0 <= z < Z.of_nat (max_cameras_to_check self))%Z /\
  isOpened env (from + Z.to_nat z) (Z.to_nat z) = true.
Proof.
  unfold acceptable, py_getitem.
  destruct (Z.leb_spec 0 z) as [H0 | H0];
    destruct (Z.ltb_spec z (Z.of_nat (max_cameras_to_check self)))
      as [Hmax | Hmax]; cbn [andb];
    try (split; [discriminate | intros [? _]; lia]).
  rewrite nth_error_scanned by lia. tauto.
Qed.

(** A line inside the bounds always finds its entry: the list has
    [max_cameras_to_check] entries. *)
Lemma py_getitem_in_bounds (available : list (nat * bool)) (z : Z) :
  length available = max_cameras_to_check self ->
  (0 <=? z)%Z && (z <? Z.of_nat (max_cameras_to_check self))%Z = true ->
  py_getitem available z <> None.
Proof.
  intros Hlen Hz. apply andb_prop in Hz. destruct Hz as [H0 Hmax].
  apply Z.leb_le in H0. apply Z.ltb_lt in Hmax.
  unfold py_getitem. destruct (Z.leb_spec 0 z); [| lia].
  apply nth_error_Some. lia.
Qed.

Lemma ask_unfold (available : list (nat * bool)) (line : Line)
    (lines : list Line) (out : list Message) :
  ask self available (line :: lines) out =
  if acceptable self available line
  then (returns (match line with number z => Some z | _ => None end),
        lines, out ++ [enter_the_index])
  else
    ask self available lines
        (out ++ [enter_the_index] ++
         [match line with
          | not_a_number => invalid_input_enter_a_number
          | number z =>
            if ((0 <=? z)
                && (z <? Z.of_nat (max_cameras_to_check self)))%Z
            then match py_getitem available z with
                 | None => invalid_input_between
                 | Some _ => invalid_camera_index
                 end
            else invalid_camera_index
          end]).
Proof.
  cbn [ask]. unfold acceptable. rewrite !app_assoc.
  destruct line as [z |]; [| reflexivity].
  destruct ((0 <=? z)%Z && (z <? Z.of_nat (max_cameras_to_check self))%Z);
    cbn [andb]; [| reflexivity].
  destruct (py_getitem available z) as [[index status] |]; [| reflexivity].
  destruct status; reflexivity.
Qed.

Lemma ask_first_acceptable (available : list (nat * bool))
    (pre rest : list Line) (z : Z) (out : list Message) :
  Forall (fun line => acceptable self available line = false) pre ->
  acceptable self available (number z) = true ->
  exists out',
    ask self available (pre ++ number z :: rest) out =
    (returns (Some z), rest, out') /\
    length out' = (length out + 2 * length pre + 1)%nat.
Proof.
  intros Hpre Hz. revert out.
  induction Hpre as [| line pre Hline Hpre IH]; intros out.
  - cbn [app]. rewrite ask_unfold, Hz. eexists. split; [reflexivity |].
    rewrite length_app. simpl. lia.
  - cbn [app]. rewrite ask_unfold, Hline.
    destruct (IH (out ++ [enter_the_index] ++
                  [match line with
                   | not_a_number => invalid_input_enter_a_number
                   | number z0 =>
                     if ((0 <=? z0)
                         && (z0 <? Z.of_nat (max_cameras_to_check self)))%Z
                     then match py_getitem available z0 with
                          | None => invalid_input_between
                          | Some _ => invalid_camera_index
                          end
                     else invalid_camera_index
                   end])) as (out' & Hask & Hlen).
    exists out'. split; [exact Hask |].
    rewrite Hlen, !length_app. simpl. lia.
Qed.

Lemma ask_no_acceptable (available : list (nat * bool))
    (lines : list Line) (out : list Message) :
  Forall (fun line => acceptable self available line = false) lines ->
  exists out', ask self available lines out = (raises_EOFError, [], out').
Proof.
  intros Hall. revert out.
  induction Hall as [| line lines Hline Hall IH]; intros out.
  - eexists. reflexivity.
  - rewrite ask_unfold, Hline. apply IH.
Qed.

(** Every input is a run of lines that are not acceptable, followed by an
    acceptable number or by the end. *)
Lemma lines_split (available : list (nat * bool)) (lines : list Line) :
  Forall (fun line => acceptable self available line = false) lines \/
  exists pre z rest,
    lines = pre ++ number z :: rest /\
    Forall (fun line => acceptable self available line = false) pre /\
    acceptable self available (number z) = true.
Proof.
  induction lines as [| line lines IH]; [left; constructor |].
  destruct (acceptable self available line) eqn:Hline.
  - right. destruct line as [z |]; [| discriminate].
    exists [], z, lines. repeat split; [constructor | exact Hline].
  - destruct IH as [Hall | (pre & z & rest & -> & Hpre & Hz)].
    + left. constructor; assumption.
    + right. exists (line :: pre), z, rest.
      repeat split; [constructor; assumption | exact Hz].
Qed.

Lemma ask_never_index_error (available : list (nat * bool))
    (lines : list Line) (out : list Message) :
  length available = max_cameras_to_check self ->
  In invalid_input_between (snd (ask self available lines out)) ->
  In invalid_input_between out.
Proof.
  intros Hlen. revert out.
  induction lines as [| line lines IH]; intros out Hin.
  - cbn in Hin. apply in_app_iff in Hin.
    destruct Hin as [Hin | [Hin | []]]; [exact Hin | discriminate].
  - rewrite ask_unfold in Hin.
    destruct (acceptable self available line).
    + cbn in Hin. apply in_app_iff in Hin.
      destruct Hin as [Hin | [Hin | []]]; [exact Hin | discriminate].
    + apply IH in Hin. rewrite !in_app_iff in Hin.
      destruct Hin as [Hin | [Hin | Hin]]; [exact Hin | |].
      * destruct Hin as [Hin | []]. discriminate.
      * destruct Hin as [Hin | []]. exfalso.
        destruct line as [z |]; [| discriminate].
        destruct ((0 <=? z)%Z
                  && (z <? Z.of_nat (max_cameras_to_check self))%Z) eqn:Hz;
          [| discriminate].
        pose proof (py_getitem_in_bounds available z Hlen Hz) as Hsome.
        destruct (py_getitem available z); [discriminate | congruence].
Qed.

(** *** select_camera *)

Lemma print_camera_lines (available : list (nat * bool)) (env : Env) :
  fold_left
    (fun env (entry : nat * bool) =>
       let (index, status) := entry in
       print (camera_line index status) env)
    available env =
  {| isOpened := isOpened env; captures := captures env; held := held env;
     stdin := stdin env;
     stdout := stdout env ++
               map (fun entry : nat * bool =>
                      camera_line (fst entry) (snd entry)) available |}.
Proof.
  revert env. induction available as [| [index status] available IH];
    intros env.
  - cbn. rewrite app_nil_r. destruct env; reflexivity.
  - cbn [fold_left]. rewrite IH. unfold print.
    cbn [isOpened captures held stdin stdout map fst snd].
    rewrite <- app_assoc. reflexivity.
Qed.

Lemma select_camera_eq (env : Env) :
  select_camera self env =
  if isOpened env (captures env) 0
  then (returns (Some 0%Z), after_captures 1 env)
  else
    let available := scanned self env (S (captures env)) in
    if negb (existsb snd available)
    then
      (returns None,
       {| isOpened := isOpened env;
          captures := max_cameras_to_check self + S (captures env);
          held := held env; stdin := stdin env;
          stdout := (stdout env ++ [default_camera_not_available]) ++
                    [no_cameras_found] |})
    else
      (fst (fst (ask self available (stdin env)
                     (stdout env ++ listing available))),
       {| isOpened := isOpened env;
          captures := max_cameras_to_check self + S (captures env);
          held := held env;
          stdin := snd (fst (ask self available (stdin env)
                                 (stdout env ++ listing available)));
          stdout := snd (ask self available (stdin env)
                             (stdout env ++ listing available)) |}).
Proof.
  unfold select_camera, VideoCapture. cbv zeta.
  destruct (isOpened env (captures env) 0) eqn:Hdefault.
  - unfold release, after_captures.
    cbn [isOpened captures held stdin stdout Z.of_nat].
    rewrite release_one_head. reflexivity.
  - rewrite get_available_cameras_eq. cbv beta iota zeta.
    rewrite print_camera_lines.
    unfold print, after_captures, scanned, listing.
    cbn [isOpened captures held stdin stdout].
    set (available := map (fun i => (i, isOpened env (S (captures env) + i) i))
                          (seq 0 (max_cameras_to_check self))).
    destruct (negb (existsb snd available)); [reflexivity |].
    replace (((stdout env ++ [default_camera_not_available]) ++
              [available_cameras_header]) ++
             map (fun entry : nat * bool =>
                    camera_line (fst entry) (snd entry)) available)
      with (stdout env ++
            ([default_camera_not_available; available_cameras_header] ++
             map (fun entry : nat * bool =>
                    camera_line (fst entry) (snd entry)) available))
      by (rewrite <- !app_assoc; reflexivity).
    destruct (ask self available (stdin env) _) as [[ending lines] out].
    reflexivity.
Qed.

Lemma existsb_scanned (env : Env) (from : nat) :
  existsb snd (scanned self env from) = false <->
  forall i, (i < max_cameras_to_check self)%nat ->
            isOpened env (from + i) i = false.
Proof.
  unfold scanned. split.
  - intros Hnone i Hi.
    destruct (isOpened env (from + i) i) eqn:Hopen; [| reflexivity].
    assert (Hsome : existsb snd
              (map (fun i0 => (i0, isOpened env (from + i0) i0))
                   (seq 0 (max_cameras_to_check self))) = true).
    { apply existsb_exists. exists (i, true). split; [| reflexivity].
      apply in_map_iff. exists i. rewrite Hopen. split; [reflexivity |].
      apply in_seq. lia. }
    congruence.
  - intros Hall.
    destruct (existsb snd
                (map (fun i => (i, isOpened env (from + i) i))
                     (seq 0 (max_cameras_to_check self)))) eqn:Hex;
      [| reflexivity].
    apply existsb_exists in Hex. destruct Hex as ([i status] & Hin & Hst).
    apply in_map_iff in Hin. destruct Hin as (i0 & Heq & Hin0).
    apply in_seq in Hin0. injection Heq as -> <-.
    cbn in Hst. rewrite Hall in Hst by lia. discriminate.
Qed.

Lemma acceptable_then_some_camera (env : Env) (from : nat) (z : Z) :
  acceptable self (scanned self env from) (number z) = true ->
  existsb snd (scanned self env from) = true.
Proof.
  intros Hz. apply acceptable_scanned in Hz. destruct Hz as [Hb Hopen].
  destruct (existsb snd (scanned self env from)) eqn:Hex; [reflexivity |].
  pose proof (proj1 (existsb_scanned env from) Hex (Z.to_nat z)) as Hno.
  rewrite Hno in Hopen by lia. discriminate.
Qed.

(** What the prompt returns, read off the input. *)
Lemma ask_ending (available : list (nat * bool)) (lines : list Line)
    (out : list Message) :
  (fst (fst (ask self available lines out)) = raises_EOFError /\
   Forall (fun line => acceptable self available line = false) lines) \/
  (exists pre z rest,
      lines = pre ++ number z :: rest /\
      Forall (fun line => acceptable self available line = false) pre /\
      acceptable self available (number z) = true /\
      fst (fst (ask self available lines out)) = returns (Some z) /\
      snd (fst (ask self available lines out)) = rest).
Proof.
  destruct (lines_split available lines)
    as [Hall | (pre & z & rest & -> & Hpre & Hz)].
  - left. destruct (ask_no_acceptable available lines out Hall) as [out' ->].
    split; [reflexivity | exact Hall].
  - right. exists pre, z, rest.
    destruct (ask_first_acceptable available pre rest z out Hpre Hz)
      as (out' & -> & _).
    repeat split; assumption.
Qed.

(** X11: whatever index [select_camera] returns is a camera it saw open:
    0 when the first capture of index 0 opened, and else a number typed
    in, within [0, max_cameras_to_check), whose capture in the scan
    opened. *)
Theorem select_camera_returns_an_open_camera (env : Env) (z : Z) :
  fst (select_camera self env) = returns (Some z) ->
  (z = 0%Z /\ isOpened env (captures env) 0 = true) \/
  (isOpened env (captures env) 0 = false /\
   (0 <= z < Z.of_nat (max_cameras_to_check self))%Z /\
   isOpened env (S (captures env) + Z.to_nat z) (Z.to_nat z) = true /\
   In (number z) (stdin env)).
Proof.
  rewrite select_camera_eq.
  destruct (isOpened env (captures env) 0) eqn:Hdefault.
  - cbn [fst]. intros [= <-]. left. split; reflexivity.
  - cbv zeta.
    destruct (negb (existsb snd (scanned self env (S (captures env)))));
      cbn [fst]; [discriminate |].
    intros Hret. right.
    destruct (ask_ending (scanned self env (S (captures env))) (stdin env)
                (stdout env ++
                 listing (scanned self env (S (captures env)))))
      as [[Heof _] | (pre & z0 & rest & Hlines & _ & Hz & Hsome & _)].
    + congruence.
    + rewrite Hsome in Hret. injection Hret as <-.
      apply acceptable_scanned in Hz. destruct Hz as [Hb Hopen].
      split; [reflexivity |]. split; [exact Hb |]. split; [exact Hopen |].
      rewrite Hlines. apply in_app_iff. right. left. reflexivity.
Qed.

(** X12: [select_camera] returns [None] exactly when neither the first
    capture of index 0 nor any capture of the scan opens; it then reads no
    input. *)
Theorem select_camera_none_iff_no_camera (env : Env) :
  (fst (select_camera self env) = returns None <->
   isOpened env (captures env) 0 = false /\
   forall i, (i < max_cameras_to_check self)%nat ->
             isOpened env (S (captures env) + i) i = false) /\
  (fst (select_camera self env) = returns None ->
   stdin (snd (select_camera self env)) = stdin env).
Proof.
  rewrite select_camera_eq.
  destruct (isOpened env (captures env) 0) eqn:Hdefault.
  - cbn [fst snd]. split; [split |]; try discriminate. intros [? _].
    discriminate.
  - cbv zeta.
    destruct (existsb snd (scanned self env (S (captures env)))) eqn:Hex;
      cbn [negb fst snd].
    + assert (Hnot : fst (fst (ask self (scanned self env (S (captures env)))
                              (stdin env)
                              (stdout env ++
                               listing (scanned self env
                                          (S (captures env)))))) <>
                     returns None).
      { destruct (ask_ending (scanned self env (S (captures env)))
                    (stdin env)
                    (stdout env ++
                     listing (scanned self env (S (captures env)))))
          as [[-> _] | (pre & z & rest & _ & _ & _ & -> & _)];
          discriminate. }
      split; [split |]; try (intros H; contradiction).
      intros [_ Hall].
      pose proof (proj2 (existsb_scanned env (S (captures env))) Hall).
      congruence.
    + pose proof (proj1 (existsb_scanned env (S (captures env))) Hex)
        as Hall.
      split; [split |]; try reflexivity. intros _. split; [reflexivity |].
      exact Hall.
Qed.

(** X13: when camera 0 does not open, the prompt passes over every line
    that is not the number of a camera listed as available, printing the
    prompt and one complaint for each, and returns the first line that is;
    the lines after it are not read.  If no line is, it ends in the
    [EOFError] of [input()] when a camera is available. *)
Theorem select_camera_takes_first_acceptable_line
    (env : Env) (pre rest : list Line) (z : Z) :
  let available := scanned self env (S (captures env)) in
  isOpened env (captures env) 0 = false ->
  Forall (fun line => acceptable self available line = false) pre ->
  (stdin env = pre ++ number z :: rest ->
   acceptable self available (number z) = true ->
   fst (select_camera self env) = returns (Some z) /\
   stdin (snd (select_camera self env)) = rest /\
   length (stdout (snd (select_camera self env))) =
     (length (stdout env) + length (listing available)
      + 2 * length pre + 1)%nat) /\
  (stdin env = pre -> existsb snd available = true ->
   fst (select_camera self env) = raises_EOFError).
Proof.
  intros available Hdefault Hpre. rewrite select_camera_eq, Hdefault.
  subst available. cbv zeta. split.
  - intros Hlines Hz.
    rewrite (acceptable_then_some_camera env _ z Hz). cbn [negb fst snd].
    rewrite Hlines.
    destruct (ask_first_acceptable (scanned self env (S (captures env)))
                pre rest z
                (stdout env ++ listing (scanned self env (S (captures env))))
                Hpre Hz)
      as (out' & -> & Hlen).
    cbn [fst snd stdin stdout]. rewrite Hlen, length_app.
    split; [reflexivity | split; [reflexivity | lia]].
  - intros Hlines Hsome. rewrite Hsome. cbn [negb fst]. rewrite Hlines.
    destruct (ask_no_acceptable (scanned self env (S (captures env))) pre
                (stdout env ++ listing (scanned self env (S (captures env))))
                Hpre) as [out' ->].
    reflexivity.
Qed.

(** X14: the [IndexError] handler of the prompt never runs: its message is
    in the output after [select_camera] only if it was there before. *)
Theorem select_camera_never_index_error (env : Env) :
  In invalid_input_between (stdout (snd (select_camera self env))) ->
  In invalid_input_between (stdout env).
Proof.
  rewrite select_camera_eq.
  destruct (isOpened env (captures env) 0); [cbn; tauto |].
  cbv zeta.
  destruct (negb (existsb snd (scanned self env (S (captures env)))));
    cbn [snd stdout].
  - rewrite !in_app_iff. cbn.
    intros [[H | [H | []]] | [H | []]]; try discriminate. exact H.
  - intros Hin. apply ask_never_index_error in Hin;
      [| apply length_scanned].
    apply in_app_iff in Hin. destruct Hin as [Hin | Hin]; [exact Hin |].
    unfold listing in Hin. apply in_app_iff in Hin.
    destruct Hin as [[H | [H | []]] | Hin]; try discriminate.
    apply in_map_iff in Hin. destruct Hin as (entry & Habs & _).
    discriminate.
Qed.

Lemma select_camera_releases_every_capture_held (env : Env) :
  held (snd (select_camera self env)) = held env.
Proof.
  rewrite select_camera_eq.
  destruct (isOpened env (captures env) 0); [reflexivity |].
  cbv zeta.
  destruct (negb (existsb snd (scanned self env (S (captures env)))));
    reflexivity.
Qed.

(** X15: [select_camera] leaves no capture open, however it ends: it
    makes one capture when camera 0 opens and [max_cameras_to_check] more
    when it does not, and releases each one that opened. *)
Theorem select_camera_releases_every_capture (env : Env) :
  held (snd (select_camera self env)) = held env /\
  captures (snd (select_camera self env)) =
    if isOpened env (captures env) 0
    then S (captures env)
    else (max_cameras_to_check self + S (captures env))%nat.
Proof.
  rewrite select_camera_eq.
  destruct (isOpened env (captures env) 0); [split; reflexivity |].
  cbv zeta.
  destruct (negb (existsb snd (scanned self env (S (captures env)))));
    split; reflexivity.
Qed.

End Selector.

Lemma get_available_cameras_lists_every_index_witness :
  nth_error
    (fst (CameraSelector.get_available_cameras CameraSelector.__init__
            CameraSelector.only_camera_2)) 2 = Some (2%nat, true) /\
  length
    (fst (CameraSelector.get_available_cameras CameraSelector.__init__
            CameraSelector.only_camera_2)) = 10%nat.
Proof.
  destruct (get_available_cameras_lists_every_index CameraSelector.__init__
              CameraSelector.only_camera_2) as (_ & Hlen & Hnth & _).
  split; [| exact Hlen].
  rewrite (Hnth 2%nat) by (simpl; lia). reflexivity.
Defined.

Lemma select_camera_returns_an_open_camera_witness :
  fst (CameraSelector.select_camera CameraSelector.__init__
         CameraSelector.only_camera_2) = CameraSelector.returns (Some 2%Z) /\
  CameraSelector.isOpened CameraSelector.only_camera_2 3 2 = true.
Proof.
  assert (Hret : fst (CameraSelector.select_camera CameraSelector.__init__
                        CameraSelector.only_camera_2)
                 = CameraSelector.returns (Some 2%Z)) by reflexivity.
  split; [exact Hret |].
  destruct (select_camera_returns_an_open_camera CameraSelector.__init__
              CameraSelector.only_camera_2 2%Z Hret)
    as [[Habs _] | (_ & _ & Hopen & _)]; [discriminate | exact Hopen].
Defined.

Lemma select_camera_none_iff_no_camera_witness :
  fst (CameraSelector.select_camera CameraSelector.__init__
         CameraSelector.no_camera_at_all) = CameraSelector.returns None /\
  CameraSelector.stdin
    (snd (CameraSelector.select_camera CameraSelector.__init__
            CameraSelector.no_camera_at_all)) =
  [CameraSelector.number 0].
Proof.
  destruct (select_camera_none_iff_no_camera CameraSelector.__init__
              CameraSelector.no_camera_at_all) as [[_ Hnone] Hstdin].
  assert (Hret : fst (CameraSelector.select_camera CameraSelector.__init__
                        CameraSelector.no_camera_at_all)
                 = CameraSelector.returns None)
    by (apply Hnone; split; [reflexivity | intros i _; reflexivity]).
  split; [exact Hret | exact (Hstdin Hret)].
Defined.

Lemma select_camera_takes_first_acceptable_line_witness :
  fst (CameraSelector.select_camera CameraSelector.__init__
         CameraSelector.only_camera_2) = CameraSelector.returns (Some 2%Z) /\
  CameraSelector.stdin
    (snd (CameraSelector.select_camera CameraSelector.__init__
            CameraSelector.only_camera_2)) = [CameraSelector.number 7].
Proof.
  destruct (select_camera_takes_first_acceptable_line CameraSelector.__init__
              CameraSelector.only_camera_2
              [CameraSelector.not_a_number; CameraSelector.number 5]
              [CameraSelector.number 7] 2%Z eq_refl
              ltac:(repeat constructor)) as [Hfirst _].
  destruct (Hfirst eq_refl eq_refl) as (Hret & Hrest & _).
  split; assumption.
Defined.

Lemma select_camera_never_index_error_witness :
  let env :=
    {| CameraSelector.isOpened := fun _ i => Nat.eqb i 2;
       CameraSelector.captures := 0; CameraSelector.held := [];
       CameraSelector.stdin := [CameraSelector.number 2];
       CameraSelector.stdout := [CameraSelector.invalid_input_between] |} in
  In CameraSelector.invalid_input_between
     (CameraSelector.stdout
        (snd (CameraSelector.select_camera CameraSelector.__init__ env))) /\
  In CameraSelector.invalid_input_between (CameraSelector.stdout env).
Proof.
  intros env.
  assert (Hin : In CameraSelector.invalid_input_between
                   (CameraSelector.stdout
                      (snd (CameraSelector.select_camera
                              CameraSelector.__init__ env))))
    by (vm_compute; left; reflexivity).
  split; [exact Hin |].
  exact (select_camera_never_index_error CameraSelector.__init__ env Hin).
Defined.

(** * main.py *)

Lemma session_ok_main_loop (ticks : list Tick) (w : World) :
  session_ok w -> session_ok (fst (main_loop ticks w)).
Proof.
  revert w. induction ticks as [| t ticks IH]; intros w Hok; [exact Hok |].
  destruct t as [ret hands key | | o]; cbn [main_loop].
  - destruct ret; cbn [negb]; [| exact Hok]. cbv zeta.
    pose proof (session_ok_process_frame hands w Hok) as Hframe.
    destruct (Z.land key 255 =? ord_q)%Z; [exact Hframe |].
    destruct (Z.land key 255 =? ord_p)%Z;
      [apply IH, session_ok_toggle_play_pause, Hframe |].
    destruct (Z.land key 255 =? ord_r)%Z;
      [apply IH, session_ok_reset_controls, Hframe |].
    apply IH, Hframe.
  - apply IH, session_ok__process_audio, Hok.
  - apply IH, session_ok__process_audio_resume, Hok.
Qed.

(** X16: the loop of [main] is left at the first tick whose frame cannot
    be read or whose key has the low byte of `q`, and at no other: the
    ticks after it are not looked at, and without such a tick the loop is
    still running when the ticks end. *)
Theorem main_loop_leaves_at_first_exit_tick
    (before after : list Tick) (t : Tick) (w : World) :
  Forall (fun t0 => leaves_loop t0 = false) before ->
  snd (main_loop before w) = None /\
  (leaves_loop t = true ->
   snd (main_loop (before ++ t :: after) w) = Some after).
Proof.
  intros Hbefore. revert w.
  induction Hbefore as [| t0 before Ht0 Hbefore IH]; intros w.
  - split; [reflexivity |]. intros Ht. cbn [app].
    destruct t as [ret hands key | |]; try discriminate.
    cbn [main_loop]. cbn in Ht.
    destruct ret; cbn [negb orb] in *; [| reflexivity]. cbv zeta.
    rewrite Ht. reflexivity.
  - destruct t0 as [ret hands key | | o]; cbn [main_loop app].
    + cbn in Ht0. apply orb_false_elim in Ht0. destruct Ht0 as [Hret Hq].
      apply negb_false_iff in Hret. subst ret. cbn [negb]. cbv zeta.
      rewrite Hq.
      destruct (Z.land key 255 =? ord_p)%Z; [apply IH |].
      destruct (Z.land key 255 =? ord_r)%Z; apply IH.
    + apply IH.
    + apply IH.
Qed.

Lemma main_loop_leaves_at_first_exit_tick_witness :
  let w := __init__ (clock_of 1000 1000.05) in
  let ticks :=
    [iteration true [] (-1); render_thread_begins; iteration true [] 112;
     iteration true [] 369; iteration true [] 114] in
  snd (main_loop ticks w) = Some [iteration true [] 114].
Proof.
  intros w ticks.
  destruct (main_loop_leaves_at_first_exit_tick
              [iteration true [] (-1); render_thread_begins;
               iteration true [] 112]
              [iteration true [] 114] (iteration true [] 369) w
              ltac:(repeat constructor)) as [_ Hexit].
  exact (Hexit eq_refl).
Defined.

(** X17: when [main] ends by leaving its loop, the music is stopped
    ([is_playing] false, the mixer idle and shut down), speed and pitch
    are in range, and no capture is left open. *)
Theorem main_quit_leaves_everything_stopped
    (audio_exists : bool) (args_camera : Z) (env env' : CameraSelector.Env)
    (clock : nat -> R) (unlinked : bool) (ticks unread : list Tick)
    (p : Process) :
  main audio_exists args_camera env clock unlinked ticks = quit p env' unread ->
  is_playing (self (controller p)) = false /\
  status (mixer (controller p)) = Idle /\
  mixer_initialized p = false /\
  in_range (controller p) /\
  CameraSelector.held env' = CameraSelector.held env.
Proof.
  unfold main. destruct audio_exists; cbn [negb]; [| discriminate].
  cbv zeta.
  pose proof (select_camera_releases_every_capture_held
                CameraSelector.__init__ env) as Hheld.
  destruct (CameraSelector.select_camera CameraSelector.__init__ env)
    as [ending env1].
  cbn [snd] in Hheld.
  destruct ending as [[camera_index |] |]; try discriminate.
  unfold CameraSelector.VideoCapture. cbv zeta.
  destruct (CameraSelector.isOpened env1 (CameraSelector.captures env1)
              (Z.to_nat camera_index)); cbn [negb]; [| discriminate].
  pose proof (session_ok_main_loop ticks (__init__ clock)
                (session_ok___init__ clock)) as Hok.
  destruct (main_loop ticks (__init__ clock)) as [w [unread0 |]];
    [| discriminate].
  cbn [fst] in Hok. intros [= <- <- <-].
  unfold cleanup, CameraSelector.release.
  cbn [controller mixer_initialized CameraSelector.held].
  rewrite release_one_head.
  destruct Hok as ((Hspeed & Hpitch) & _ & Hplay & _).
  unfold stop_audio. rewrite Hplay.
  split; [reflexivity |]. split; [reflexivity |]. split; [reflexivity |].
  split; [| exact Hheld].
  unfold in_range. cbn [with_self with_mixer call self].
  destruct (self w). cbn in *. lra.
Qed.

Lemma main_quit_leaves_everything_stopped_witness :
  let clock := clock_of 1000 1000.05 in
  let p := cleanup true {| controller := __init__ clock;
                           mixer_initialized := true;
                           temp_output_exists := true |} in
  let env' := CameraSelector.after_captures 2 CameraSelector.camera_0_opens in
  main true 7 CameraSelector.camera_0_opens clock true
       [iteration false [] 0; iteration true [] 112] =
    quit p env' [iteration true [] 112] /\
  is_playing (self (controller p)) = false /\
  status (mixer (controller p)) = Idle.
Proof.
  intros clock p env'.
  assert (Hmain :
    main true 7 CameraSelector.camera_0_opens clock true
         [iteration false [] 0; iteration true [] 112] =
    quit p env' [iteration true [] 112]).
  { unfold main. cbn [negb]. cbv zeta.
    rewrite select_camera_eq. reflexivity. }
  split; [exact Hmain |].
  destruct (main_quit_leaves_everything_stopped _ _ _ _ _ _ _ _ _ Hmain)
    as (Hplay & Hstatus & _).
  split; assumption.
Defined.

(** X18: [main] never looks at [--camera]: when camera 0 opens, it is
    camera 0 that [main] opens and reads, without asking, whatever the
    value of the option. *)
Theorem main_opens_camera_0_whatever_the_option
    (args_camera : Z) (env : CameraSelector.Env) (clock : nat -> R)
    (unlinked : bool) (ticks : list Tick) :
  CameraSelector.isOpened env (CameraSelector.captures env) 0 = true ->
  CameraSelector.isOpened env (S (CameraSelector.captures env)) 0 = true ->
  main true args_camera env clock unlinked ticks =
  match main_loop ticks (__init__ clock) with
  | (w, None) => running_on w
  | (w, Some unread) =>
    quit (cleanup unlinked {| controller := w; mixer_initialized := true;
                              temp_output_exists := true |})
         (CameraSelector.after_captures 2 env) unread
  end.
Proof.
  intros Hfirst Hsecond. unfold main. cbn [negb]. cbv zeta.
  rewrite select_camera_eq, Hfirst.
  unfold CameraSelector.VideoCapture, CameraSelector.after_captures.
  cbn [CameraSelector.isOpened CameraSelector.captures CameraSelector.held
       CameraSelector.stdin CameraSelector.stdout Z.to_nat Nat.add].
  rewrite Hsecond. cbn [negb].
  destruct (main_loop ticks (__init__ clock)) as [w [unread |]];
    [| reflexivity].
  unfold CameraSelector.release.
  cbn [CameraSelector.isOpened CameraSelector.captures CameraSelector.held
       CameraSelector.stdin CameraSelector.stdout].
  rewrite release_one_head. reflexivity.
Qed.

Lemma main_opens_camera_0_whatever_the_option_witness :
  main true 7 CameraSelector.camera_0_opens (clock_of 1000 1000.05) true [] =
  running_on (__init__ (clock_of 1000 1000.05)).
Proof.
  exact (main_opens_camera_0_whatever_the_option 7
           CameraSelector.camera_0_opens (clock_of 1000 1000.05) true []
           eq_refl eq_refl).
Defined.

(** * More on the controller *)

(** ** The mixer in a frame *)

Lemma check_keeps_mixer (c : Candidate) (w : World) :
  mixer (check c w) = mixer w.
Proof.
  destruct w as [x m st rn clk rd cs tmp].
  destruct x as [pl csp cpi ip lut ui lsp lpi sth pth pa uls ulp hc].
  destruct c as [v | v | v]; unfold check; run_code; reflexivity.
Qed.

Lemma two_hands_mixer (hand1 hand2 : Hand) (w : World) :
  mixer (two_hands hand1 hand2 w) =
  music.set_volume (clip (wrist_distance hand1 hand2) 0.0 1.0) (mixer w).
Proof.
  unfold two_hands. cbv zeta.
  etransitivity; [exact (check_keeps_mixer (frequency_shift _) _) |].
  etransitivity; [exact (check_keeps_mixer (new_speed _) _) |].
  reflexivity.
Qed.

(** X20: a frame with two hands does one thing to the mixer, in every
    state: it sets the volume, with no threshold and no time gate, to what
    the mixer keeps of the wrist distance clipped to [0, 1], the multiple
    of 1/128 just below it; what is loaded and whether it plays are as
    before. *)
Theorem two_hand_frame_sets_the_volume (hand1 hand2 : Hand) (w : World) :
  let v := clip (wrist_distance hand1 hand2) 0.0 1.0 in
  let w' := process_frame [hand1; hand2] w in
  mixer w' = music.set_volume v (mixer w) /\
  volume (mixer w') = IZR (Int_part (v * 128)) / 128 /\
  v - 1 / 128 < volume (mixer w') <= v /\
  loaded (mixer w') = loaded (mixer w) /\
  status (mixer w') = status (mixer w).
Proof.
  intros v w'.
  assert (Hmixer : mixer w' = music.set_volume v (mixer w)).
  { subst w' v. unfold process_frame, handle_gestures.
    cbn [fold_left length].
    destruct (one_hand_keeps_speed_and_mixer hand2
                (two_hands hand1 hand2
                   (one_hand hand1
                      (two_hands hand1 hand2
                         (with_self (set_hand_count 2) w)))))
      as (_ & _ & ->).
    rewrite two_hands_mixer.
    destruct (one_hand_keeps_speed_and_mixer hand1
                (two_hands hand1 hand2 (with_self (set_hand_count 2) w)))
      as (_ & _ & ->).
    rewrite two_hands_mixer.
    unfold music.set_volume, with_self. cbn [loaded status volume mixer].
    rewrite kept_volume_twice. reflexivity. }
  assert (Hv : 0 <= v <= 1)
    by (pose proof (clip_bounds 0.0 1.0 ltac:(lra)
                      (wrist_distance hand1 hand2)) as Hclip;
        subst v; lra).
  destruct (kept_volume_unit v (volume (mixer w)) Hv) as [Hkept Hnear].
  rewrite Hmixer. unfold music.set_volume. cbn [loaded status volume].
  rewrite <- Hkept. repeat split; apply Hnear.
Qed.

(** ** The rate limit over a session *)

Ltac shut_goal :=
  unfold gate_shut; fields;
  match goal with
  | H : forall n, (_ <= n)%nat -> _ |- _ =>
    intros n0 Hn0; apply H; lia
  end.

Lemma gate_shut_check (c : Candidate) (w : World) :
  gate_shut w ->
  gate_shut (check c w) /\
  thread_starts (calls (check c w)) = thread_starts (calls w).
Proof.
  intros Hshut.
  destruct w as [x m st rn clk rd cs tmp].
  destruct x as [pl csp cpi ip lut ui lsp lpi sth pth pa uls ulp hc].
  unfold gate_shut in Hshut. cbn in Hshut.
  pose proof (Hshut rd (le_n rd)) as Hnow.
  destruct c as [v | v | v]; unfold check; run_code;
    (split; [shut_goal | fields; count_starts]).
Qed.

Lemma gate_shut_two_hands (hand1 hand2 : Hand) (w : World) :
  gate_shut w ->
  gate_shut (two_hands hand1 hand2 w) /\
  thread_starts (calls (two_hands hand1 hand2 w)) = thread_starts (calls w).
Proof.
  intros Hshut. unfold two_hands. cbv zeta.
  generalize (clip (utils.calculate_distance (landmark hand1 WRIST)
                                             (landmark hand2 WRIST)) 0.0 1.0).
  intros vol.
  assert (Hvol : gate_shut (with_mixer (music.set_volume vol)
                              (call (music_set_volume vol) w)) /\
                 thread_starts
                   (calls (with_mixer (music.set_volume vol)
                             (call (music_set_volume vol) w))) =
                 thread_starts (calls w)).
  { destruct w as [x m st rn clk rd cs tmp].
    unfold gate_shut in Hshut. cbn in Hshut.
    run_code. split; [shut_goal | fields; count_starts]. }
  destruct Hvol as [Hvol Hcount].
  destruct (gate_shut_check (new_speed (speed_of_pinch
              (utils.calculate_distance (landmark hand1 THUMB_TIP)
                 (landmark hand1 INDEX_FINGER_TIP)))) _ Hvol)
    as [Hspeed Hcount1].
  destruct (gate_shut_check (frequency_shift (pitch_of_pinch
              (utils.calculate_distance (landmark hand2 THUMB_TIP)
                 (landmark hand2 INDEX_FINGER_TIP)))) _ Hspeed)
    as [Hfreq Hcount2].
  split; [exact Hfreq |].
  cbn [check] in Hcount1, Hcount2. rewrite Hcount2, Hcount1. exact Hcount.
Qed.

Lemma gate_shut_handle_gestures (hand : Hand) (all : list Hand) (w : World) :
  gate_shut w ->
  gate_shut (handle_gestures hand all w) /\
  thread_starts (calls (handle_gestures hand all w)) =
  thread_starts (calls w).
Proof.
  intros Hshut. unfold handle_gestures, one_hand. cbv zeta.
  assert (Hfirst :
    gate_shut (match all with
               | [hand1; hand2] => two_hands hand1 hand2 w
               | _ => w
               end) /\
    thread_starts (calls (match all with
                          | [hand1; hand2] => two_hands hand1 hand2 w
                          | _ => w
                          end)) = thread_starts (calls w)).
  { destruct all as [| h1 [| h2 [| h3 rest]]]; try (split; [exact Hshut |
                                                            reflexivity]).
    apply gate_shut_two_hands, Hshut. }
  destruct Hfirst as [Hfirst Hcount].
  destruct (gate_shut_check (new_pitch (pitch_of_pinch
              (utils.calculate_distance (landmark hand THUMB_TIP)
                 (landmark hand INDEX_FINGER_TIP)))) _ Hfirst)
    as [Hpitch Hcount1].
  split; [exact Hpitch |]. cbn [check] in Hcount1.
  rewrite Hcount1. exact Hcount.
Qed.

Lemma gate_shut_hands (all todo : list Hand) (w : World) :
  gate_shut w ->
  gate_shut (fold_left (fun w0 hand => handle_gestures hand all w0) todo w) /\
  thread_starts
    (calls (fold_left (fun w0 hand => handle_gestures hand all w0) todo w)) =
  thread_starts (calls w).
Proof.
  revert w. induction todo as [| hand todo IH]; intros w Hshut; simpl.
  - split; [exact Hshut | reflexivity].
  - destruct (gate_shut_handle_gestures hand all w Hshut) as [H1 Hc1].
    destruct (IH _ H1) as [H2 Hc2].
    split; [exact H2 |]. rewrite Hc2. exact Hc1.
Qed.

Lemma gate_shut_step (w : World) (e : Event) :
  gate_shut w ->
  gate_shut (step w e) /\
  thread_starts (calls (step w e)) = thread_starts (calls w).
Proof.
  intros Hshut. destruct e as [hands | | | | o]; cbn [step].
  - unfold process_frame. destruct hands as [| h rest];
      [split; [exact Hshut | reflexivity] |].
    assert (H0 : gate_shut (with_self (set_hand_count (length (h :: rest)))
                              w)).
    { generalize (length (h :: rest)). intros n.
      destruct w as [x m st rn clk rd cs tmp].
      unfold gate_shut in Hshut. cbn in Hshut.
      run_code. shut_goal. }
    destruct (gate_shut_hands (h :: rest) (h :: rest) _ H0) as [H1 Hcount].
    split; [exact H1 | exact Hcount].
  - destruct w as [x m st rn clk rd cs tmp].
    destruct x as [pl csp cpi ip lut ui lsp lpi sth pth pa uls ulp hc].
    unfold gate_shut in Hshut. cbn in Hshut.
    destruct ip, pa; run_code;
      (split; [shut_goal | fields; count_starts]).
  - destruct w as [x m st rn clk rd cs tmp].
    destruct x as [pl csp cpi ip lut ui lsp lpi sth pth pa uls ulp hc].
    unfold gate_shut in Hshut. cbn in Hshut.
    pose proof (Hshut rd (le_n rd)) as Hnow.
    destruct ip; run_code;
      (split; [shut_goal | fields; count_starts]).
  - destruct w as [x m st rn clk rd cs tmp].
    destruct x as [pl csp cpi ip lut ui lsp lpi sth pth pa uls ulp hc].
    unfold gate_shut in Hshut. cbn in Hshut.
    destruct st as [| st], pa; run_code;
      (split; [shut_goal | fields; count_starts]).
  - destruct w as [x m st rn clk rd cs tmp].
    destruct x as [pl csp cpi ip lut ui lsp lpi sth pth pa uls ulp hc].
    unfold gate_shut in Hshut. cbn in Hshut.
    destruct rn as [| job rest], o; run_code;
      (split; [shut_goal | fields; count_starts]).
Qed.

(** X21: while the clock stays within [update_interval] of the last
    start of a render, nothing starts another: whatever frames, keys and
    render threads follow, the trace gains no [Thread.start]. *)
Theorem no_render_starts_within_the_interval (w : World) (es : list Event) :
  gate_shut w ->
  thread_starts (calls (run w es)) = thread_starts (calls w).
Proof.
  intros Hshut.
  assert (Hall : gate_shut (run w es) /\
                 thread_starts (calls (run w es)) = thread_starts (calls w));
    [| tauto].
  unfold run. revert w Hshut.
  induction es as [| e es IH]; intros w Hshut; simpl;
    [split; [assumption | reflexivity] |].
  destruct (gate_shut_step w e Hshut) as [Hstep Hcount].
  destruct (IH _ Hstep) as (Hfinal & Hcount').
  split; [exact Hfinal |]. rewrite Hcount'. exact Hcount.
Qed.

Lemma no_render_starts_within_the_interval_witness :
  let w := adjust_audio (__init__ (fun _ => 1000)) in
  let es := [frame [hand_at 0.25 0.3; hand_at 0.75 0.3]; key_r;
             thread_begins; frame [hand_at 0.25 0.475]] in
  gate_shut w /\
  thread_starts (calls (run w es)) = 1%nat.
Proof.
  intros w es.
  assert (Hshut : gate_shut w).
  { unfold w, __init__. run_code. unfold gate_shut. fields.
    intros n _. lra. }
  split; [exact Hshut |].
  rewrite (no_render_starts_within_the_interval w es Hshut).
  unfold w, __init__. run_code. fields. reflexivity.
Defined.
